(** * Pixel Art Studio: the grid store, the history stacks, the palette,
    the JSON serializer and the grid overlay of the PNG exporter

    A shallow embedding of [src/App.jsx].  The component's React state is a
    record, every event handler is a function on that record, and the
    [useEffect] keyed on [size] is a function that the event loop runs after
    a handler changed [size].  The record holds an integer grid size; a
    handler that stores a size that is no integer yields no state. *)

From Stdlib Require Import ZArith QArith Qcanon.
From stdpp Require Import gmap strings list.

Set Warnings "-register-all".
Local Open Scope Z_scope.

(** ** JavaScript values and the platform functions the component calls *)

Module JS.

(** Numbers: [NaN], the two infinities and the finite numbers.  A finite
    double is the rational it stands for; the two zeros are one number, as
    they are for [===] and for [Set].  The component computes with
    integers, [Math.min] and [Math.max] only, which are exact. *)
Inductive number :=
| NaN
| PosInf
| NegInf
| Fin (q : Qc).

(** The number of an integer literal or of an integer result. *)
Definition int (z : Z) : number := Fin (Q2Qc (inject_Z z)).

(** The integer a number is, if it is one. *)
Definition to_int (n : number) : option Z :=
  match n with
  | Fin q => if (Qden (this q) =? 1)%positive then Some (Qnum (this q)) else None
  | _ => None
  end.

Definition finite (n : number) : bool :=
  match n with Fin _ => true | _ => false end.

(** [a <= b]; false when either is [NaN]. *)
Definition num_leb (a b : number) : bool :=
  match a, b with
  | NaN, _ | _, NaN => false
  | NegInf, _ => true
  | _, PosInf => true
  | Fin x, Fin y => Qle_bool (this x) (this y)
  | _, _ => false
  end.

(** The same number ([NaN] included). *)
Definition num_eqb (a b : number) : bool :=
  match a, b with
  | NaN, NaN => true
  | PosInf, PosInf => true
  | NegInf, NegInf => true
  | Fin x, Fin y => Qeq_bool (this x) (this y)
  | _, _ => false
  end.

(** [Math.min], [Math.max]: [NaN] when an argument is [NaN]. *)
Definition Math_min (a b : number) : number :=
  match a, b with
  | NaN, _ | _, NaN => NaN
  | _, _ => if num_leb a b then a else b
  end.
Definition Math_max (a b : number) : number :=
  match a, b with
  | NaN, _ | _, NaN => NaN
  | _, _ => if num_leb a b then b else a
  end.

(** An array or object is an object of the heap: [r] names the object,
    the rest is its contents.  Two arrays written with different names are
    different objects, whatever they hold. *)
Definition ref := nat.

(** Values as the component can hold them: what [JSON.parse] yields, plus
    [undefined], which is what reading a hole of an array or a missing
    property gives.  A hole of an array is an [VUndef] entry. *)
Inductive value :=
| VUndef
| VNull
| VBool (b : bool)
| VNum (n : number)
| VStr (s : string)
| VArr (r : ref) (l : list value)
| VObj (r : ref) (m : gmap string value).

(** Conjunction of a test over the property values of an object. *)
Definition map_forallb {A} (f : string → A → bool) (m : gmap string A) : bool :=
  map_fold (λ k x acc, f k x && acc) true m.

Fixpoint vsize (v : value) : nat :=
  match v with
  | VArr _ l => S (foldr (λ x acc, vsize x + acc)%nat 0%nat l)
  | VObj _ m => S (map_fold (λ _ x acc, vsize x + acc)%nat 0%nat m)
  | _ => 1%nat
  end.

(** The same value: the same primitive, or the same object (same name,
    same contents).  This is the comparison of [Set] (SameValueZero). *)
Fixpoint same_value (a b : value) : bool :=
  match a, b with
  | VUndef, VUndef => true
  | VNull, VNull => true
  | VBool x, VBool y => Bool.eqb x y
  | VNum x, VNum y => num_eqb x y
  | VStr x, VStr y => String.eqb x y
  | VArr r1 l1, VArr r2 l2 =>
      Nat.eqb r1 r2
      && (fix go (l1 l2 : list value) : bool :=
            match l1, l2 with
            | [], [] => true
            | x :: l1, y :: l2 => same_value x y && go l1 l2
            | _, _ => false
            end) l1 l2
  | VObj r1 m1, VObj r2 m2 =>
      Nat.eqb r1 r2
      && map_forallb (λ k x, match m2 !! k with
                             | Some y => same_value x y
                             | None => false
                             end) m1
      && Nat.eqb (size m1) (size m2)
  | _, _ => false
  end.

(** [a === b]: the same value, except that [NaN] is not [===] to itself. *)
Definition strict_eq (a b : value) : bool :=
  match a with
  | VNum NaN => false
  | _ => same_value a b
  end.

(** [typeof v] *)
Definition typeof (v : value) : string :=
  match v with
  | VUndef => "undefined"
  | VNull => "object"
  | VBool _ => "boolean"
  | VNum _ => "number"
  | VStr _ => "string"
  | VArr _ _ => "object"
  | VObj _ _ => "object"
  end.

(** Truthiness, as [!v], [if (v)] and [v ? a : b] use it. *)
Definition truthy (v : value) : bool :=
  match v with
  | VUndef | VNull => false
  | VBool b => b
  | VNum n => negb (num_eqb n NaN) && negb (num_eqb n (int 0))
  | VStr s => negb (String.eqb s EmptyString)
  | VArr _ _ | VObj _ _ => true
  end.

(** [Array.isArray(v)] *)
Definition Array_isArray (v : value) : bool :=
  match v with VArr _ _ => true | _ => false end.

(** [v.k] for a property name [k] that is no built-in member ([size],
    [pixels], [palette]): an own property of an object, [undefined] on
    arrays and primitives.  ([null.k] and [undefined.k] throw; every read
    of the handlers is behind a truthiness test.) *)
Definition get (v : value) (k : string) : value :=
  match v with
  | VObj _ m => default VUndef (m !! k)
  | _ => VUndef
  end.

(** [a ?? b] *)
Definition nullish (a b : value) : value :=
  match a with VUndef | VNull => b | _ => a end.

(** [arr[i]] for an integer [i]. *)
Definition arr_get (l : list value) (i : Z) : value :=
  if 0 <=? i then default VUndef (l !! Z.to_nat i) else VUndef.

(** [arr[i] = v] for an integer [i]: inside the array the element is
    replaced, past its end the array grows to length [i + 1] and the
    skipped positions are holes; a negative [i] sets a property and
    leaves the elements alone. *)
Definition arr_set (l : list value) (i : Z) (v : value) : list value :=
  if i <? 0 then l
  else if i <? Z.of_nat (length l) then <[Z.to_nat i := v]> l
  else l ++ replicate (Z.to_nat i - length l) VUndef ++ [v].

(** [Array(n).fill(v)], for an integer [0 <= n < 2^32] (otherwise a
    RangeError; the component calls it with [size * size]). *)
Definition Array_fill (n : Z) (v : value) : list value :=
  replicate (Z.to_nat n) v.

(** [Array.from(new Set(l))]: a [Set] keeps its members in insertion
    order and [add] ignores a value that is already a member. *)
Definition Set_has (s : list value) (x : value) : bool :=
  existsb (same_value x) s.
Definition Set_add (s : list value) (x : value) : list value :=
  if Set_has s x then s else s ++ [x].
Definition Array_from_Set (l : list value) : list value :=
  foldl Set_add [] l.

(** What [JSON.stringify] writes for [v] inside an array or object, read
    as a value again: [null] for [NaN] and the infinities, and, inside an
    array, [null] for an [undefined] element (or hole); a property whose
    value is [undefined] is left out; nothing else changes.  The objects
    [JSON.parse] builds from the text are new ones: see [erase]. *)
Fixpoint JSON_clone (v : value) : value :=
  match v with
  | VNum n => if finite n then v else VNull
  | VArr r l =>
      VArr r (map (λ x, match x with VUndef => VNull | _ => JSON_clone x end) l)
  | VObj r m =>
      VObj r (omap (λ x, match x with VUndef => None | _ => Some (JSON_clone x) end) m)
  | _ => v
  end.

(** The values JSON can represent: no [undefined], [NaN] or infinity
    anywhere inside. *)
Fixpoint is_json (v : value) : bool :=
  match v with
  | VUndef => false
  | VNum n => finite n
  | VArr _ l => forallb is_json l
  | VObj _ m => map_forallb (λ _ x, is_json x) m
  | _ => true
  end.

(** The contents of a value, without the names of its objects: what a
    JSON text can carry of it. *)
Fixpoint erase (v : value) : value :=
  match v with
  | VArr _ l => VArr 0%nat (map erase l)
  | VObj _ m => VObj 0%nat (erase <$> m)
  | _ => v
  end.

(** A primitive: it has no name to lose. *)
Definition primitive (v : value) : bool :=
  match v with VArr _ _ | VObj _ _ => false | _ => true end.

End JS.

Import JS.

(** ** The component state *)

(** The [useState]/[useLocalStorage] cells of [PixelArtStudio] and
    [drawingRef.current]. *)
Record State := mkState {
  size : Z;
  pixelSize : Z;
  showGrid : bool;
  currentColor : value;
  palette : list value;
  tool : string;
  pixels : list value;
  undoStack : list (list value);
  redoStack : list (list value);
  drawing : bool
}.

Definition setSize (n : Z) (st : State) : State :=
  mkState n (pixelSize st) (showGrid st) (currentColor st) (palette st)
          (tool st) (pixels st) (undoStack st) (redoStack st) (drawing st).
Definition setPixelSize (n : Z) (st : State) : State :=
  mkState (size st) n (showGrid st) (currentColor st) (palette st)
          (tool st) (pixels st) (undoStack st) (redoStack st) (drawing st).
Definition setShowGrid (b : bool) (st : State) : State :=
  mkState (size st) (pixelSize st) b (currentColor st) (palette st)
          (tool st) (pixels st) (undoStack st) (redoStack st) (drawing st).
Definition setCurrentColor (c : value) (st : State) : State :=
  mkState (size st) (pixelSize st) (showGrid st) c (palette st)
          (tool st) (pixels st) (undoStack st) (redoStack st) (drawing st).
Definition setPalette (p : list value) (st : State) : State :=
  mkState (size st) (pixelSize st) (showGrid st) (currentColor st) p
          (tool st) (pixels st) (undoStack st) (redoStack st) (drawing st).
Definition setTool (t : string) (st : State) : State :=
  mkState (size st) (pixelSize st) (showGrid st) (currentColor st) (palette st)
          t (pixels st) (undoStack st) (redoStack st) (drawing st).
Definition setPixels (p : list value) (st : State) : State :=
  mkState (size st) (pixelSize st) (showGrid st) (currentColor st) (palette st)
          (tool st) p (undoStack st) (redoStack st) (drawing st).
Definition setUndoStack (u : list (list value)) (st : State) : State :=
  mkState (size st) (pixelSize st) (showGrid st) (currentColor st) (palette st)
          (tool st) (pixels st) u (redoStack st) (drawing st).
Definition setRedoStack (r : list (list value)) (st : State) : State :=
  mkState (size st) (pixelSize st) (showGrid st) (currentColor st) (palette st)
          (tool st) (pixels st) (undoStack st) r (drawing st).
Definition setDrawing (b : bool) (st : State) : State :=
  mkState (size st) (pixelSize st) (showGrid st) (currentColor st) (palette st)
          (tool st) (pixels st) (undoStack st) (redoStack st) b.

(** [setSize(n)] for a number [n].  The record keeps an integer size, so
    there is a state only when [n] is an integer.  With [NaN], and with a
    size whose square is no integer, the next render throws: [blank]
    evaluates [Array(size * size)], a RangeError that nothing catches.
    (With exact numbers the square of a fraction is a fraction; a double
    whose rounded square is an integer is not told apart here.) *)
Definition setSizeNumber (n : number) (st : State) : option State :=
  (λ z, setSize z st) <$> to_int n.

(** ** Utility helpers *)

Definition clamp (n min max : number) : number := Math_max min (Math_min max n).

(** [idx(x, y)], with the [size] of the current render. *)
Definition idx (st : State) (x y : Z) : Z := y * size st + x.

(** [blank]: [Array(size * size).fill(null)] *)
Definition blank (sz : Z) : list value := Array_fill (sz * sz) VNull.

(** The updater of the effect keyed on [size] ("Ensure pixels resets when
    size changes"); [prev] is the stored value, which at start-up comes
    from local storage and need not be an array. *)
Definition resetPixels (sz : Z) (prev : value) : list value :=
  match prev with
  | VArr _ l => if negb (Z.of_nat (length l) =? sz * sz) then Array_fill (sz * sz) VNull else l
  | _ => Array_fill (sz * sz) VNull
  end.

(** The effect itself: [setPixels(prev => ...)], on the live array (which
    object the live array is plays no role). *)
Definition sizeEffect (st : State) : State :=
  setPixels (resetPixels (size st) (VArr 0%nat (pixels st))) st.

(** ** Grid store and history *)

Definition pushHistory (prev : list value) (st : State) : State :=
  setRedoStack [] (setUndoStack (undoStack st ++ [prev]) st).

Definition handlePaint (x y : Z) (color : value) (st : State) : State :=
  let prev := pixels st in
  let i := idx st x y in
  setPixels (if strict_eq (arr_get prev i) color then prev
             else arr_set prev i color) st.

Definition onPointerDown (x y : Z) (st : State) : State :=
  let st' := pushHistory (pixels st) (setDrawing true st) in
  if String.eqb (tool st) "pen" then handlePaint x y (currentColor st) st'
  else if String.eqb (tool st) "eraser" then handlePaint x y VNull st'
  else if String.eqb (tool st) "eyedropper" then
    let c := nullish (arr_get (pixels st) (idx st x y)) (VStr "#ffffff") in
    setTool "pen" (setCurrentColor c st')
  else st'.

Definition onPointerEnter (x y : Z) (st : State) : State :=
  if negb (drawing st) then st
  else if String.eqb (tool st) "pen" then handlePaint x y (currentColor st) st
  else if String.eqb (tool st) "eraser" then handlePaint x y VNull st
  else st.

Definition onPointerUp (st : State) : State := setDrawing false st.

Definition clearAll (st : State) : State :=
  setPixels (Array_fill (size st * size st) VNull) (pushHistory (pixels st) st).

Definition fillBackground (st : State) : State :=
  setPixels (Array_fill (size st * size st) (currentColor st))
            (pushHistory (pixels st) st).

(** [u[u.length - 1]] is [last u] and [u.slice(0, -1)] drops it. *)
Definition undo (st : State) : State :=
  let u := undoStack st in
  match last u with
  | None => st
  | Some prev =>
      setUndoStack (take (length u - 1) u)
        (setPixels prev (setRedoStack (redoStack st ++ [pixels st]) st))
  end.

Definition redo (st : State) : State :=
  let r := redoStack st in
  match last r with
  | None => st
  | Some next =>
      setRedoStack (take (length r - 1) r)
        (setPixels next (setUndoStack (undoStack st ++ [pixels st]) st))
  end.

(** ** Palette and canvas controls *)

(** "Add to palette": [Array.from(new Set([currentColor, ...p])).slice(0, 24)] *)
Definition addToPalette (st : State) : State :=
  setPalette (take 24 (Array_from_Set (currentColor st :: palette st))) st.

(** "Remove": [p.filter((c) => c !== currentColor)] *)
Definition removeFromPalette (st : State) : State :=
  setPalette (List.filter (λ c, negb (strict_eq c (currentColor st))) (palette st)) st.

(** The grid-size input: [setSize(clamp(n, 2, 256))], where [n] is what
    [parseInt(e.target.value || "0")] returned. *)
Definition onSizeChange (n : number) (st : State) : option State :=
  setSizeNumber (clamp n (int 2) (int 256)) st.

(** ** Serializer *)

(** The [payload] of [exportJSON]; [now] is [Date.now()].  (Which objects
    the payload and its parts are plays no role.) *)
Definition payload (now : Z) (st : State) : value :=
  VObj 0%nat
       (<["version" := VNum (int 1)]>
       (<["size" := VNum (int (size st))]>
       (<["pixels" := VArr 0%nat (pixels st)]>
       (<["palette" := VArr 0%nat (palette st)]>
       (<["meta" := VObj 0%nat {["createdAt" := VNum (int now)]}]> ∅))))).

(** [exportJSON] downloads the text [JSON.stringify(payload)].  This is
    the contents of that text.  [JSON.parse] turns the text into a value
    [data] with these contents and objects of its own: [erase data =
    exportJSON now st]. *)
Definition exportJSON (now : Z) (st : State) : value :=
  erase (JSON_clone (payload now st)).

Definition num_of (v : value) : number := match v with VNum n => n | _ => NaN end.
Definition elements_of (v : value) : list value :=
  match v with VArr _ l => l | _ => [] end.

(** [reader.onload].  [parsed] is the outcome of
    [JSON.parse(e.target.result)]: [None] when it throws, [Some data] when
    it returns [data].  The result is the new state with the [alert], if
    any; there is no result when the size set cannot render. *)
Definition onload (parsed : option value) (st : State)
  : option (State * option string) :=
  match parsed with
  | None => Some (st, Some "Invalid JSON file")
  | Some data =>
      if negb (truthy data)
         || negb (String.eqb (typeof (get data "size")) "number")
         || negb (Array_isArray (get data "pixels"))
      then Some (st, Some "Invalid JSON file")
      else
        st1 ← setSizeNumber (clamp (num_of (get data "size")) (int 2) (int 256)) st;
        let st2 := setPixels (elements_of (get data "pixels")) st1 in
        let st3 := if Array_isArray (get data "palette")
                   then setPalette (elements_of (get data "palette")) st2
                   else st2 in
        Some (st3, None)
  end.

(** [importJSON(file)]: [file] is [None] when no file was chosen. *)
Definition importJSON (file : option (option value)) (st : State)
  : option (State * option string) :=
  match file with
  | None => Some (st, None)
  | Some parsed => onload parsed st
  end.

(** ** Raster exporter *)

(** The calls [exportPNG] makes on the 2D context of the [size] x [size]
    canvas, in order. *)
Inductive canvas_call :=
| SetImageSmoothingEnabled (b : bool)
| SetFillStyle (c : value)
| FillRect (x y w h : Z)
| SetStrokeStyle (c : string)
| SetLineWidth (w : Q)
| BeginPath
| MoveTo (x y : Z)
| LineTo (x y : Z)
| Stroke.

Record png_export := mkPng {
  canvas_width : Z;
  canvas_height : Z;
  canvas_calls : list canvas_call;   (* on [canvas], before [drawImage] *)
  out_width : Z;
  out_height : Z;
  out_smoothing : bool
}.

(** The body of [for (let x = 0; x < size; x++)] inside the [y] loop. *)
Definition paint_cell (st : State) (y x : Z) : list canvas_call :=
  let color := arr_get (pixels st) (idx st x y) in
  if truthy color then [SetFillStyle color; FillRect x y 1 1] else [].

(** The body of [for (let i = 0; i <= size; i++)]. *)
Definition grid_lines (sz i : Z) : list canvas_call :=
  [BeginPath; MoveTo i 0; LineTo i sz; Stroke;
   BeginPath; MoveTo 0 i; LineTo sz i; Stroke].

Definition grid_overlay (sz : Z) : list canvas_call :=
  [SetStrokeStyle "#e5e7eb"; SetLineWidth 0.02%Q]
  ++ flat_map (grid_lines sz) (seqZ 0 (sz + 1)).

Definition exportPNG (withGrid : bool) (st : State) : png_export :=
  let sz := size st in
  let upscale := Z.max 1 (512 / sz) in   (* Math.max(1, Math.floor(512 / size)) *)
  mkPng sz sz
    ([SetImageSmoothingEnabled false; SetFillStyle (VStr "#ffffff");
      FillRect 0 0 sz sz]
     ++ flat_map (λ y, flat_map (paint_cell st y) (seqZ 0 sz)) (seqZ 0 sz)
     ++ (if withGrid then grid_overlay sz else []))
    (sz * upscale) (sz * upscale) false.

(** What a 2D context draws for a sequence of calls: every [stroke()]
    draws the segments of the current path with the line width and stroke
    style then in force.  A fresh context has [lineWidth = 1] and
    [strokeStyle = "#000000"]. *)
Record stroked := mkStroked {
  seg_from : Z * Z;
  seg_to : Z * Z;
  seg_width : Q;
  seg_style : string
}.

Record context := mkContext {
  lineWidth : Q;
  strokeStyle : string;
  pen : option (Z * Z);
  path : list ((Z * Z) * (Z * Z))
}.

Definition fresh_context : context := mkContext 1%Q "#000000" None [].

Fixpoint strokes_from (ctx : context) (calls : list canvas_call) : list stroked :=
  match calls with
  | [] => []
  | c :: calls =>
      match c with
      | SetLineWidth w =>
          strokes_from (mkContext w (strokeStyle ctx) (pen ctx) (path ctx)) calls
      | SetStrokeStyle s =>
          strokes_from (mkContext (lineWidth ctx) s (pen ctx) (path ctx)) calls
      | BeginPath =>
          strokes_from (mkContext (lineWidth ctx) (strokeStyle ctx) None []) calls
      | MoveTo x y =>
          strokes_from (mkContext (lineWidth ctx) (strokeStyle ctx) (Some (x, y)) (path ctx)) calls
      | LineTo x y =>
          let path' := match pen ctx with
                       | Some p => path ctx ++ [(p, (x, y))]
                       | None => path ctx
                       end in
          strokes_from (mkContext (lineWidth ctx) (strokeStyle ctx) (Some (x, y)) path') calls
      | Stroke =>
          map (λ s, mkStroked (fst s) (snd s) (lineWidth ctx) (strokeStyle ctx)) (path ctx)
          ++ strokes_from ctx calls
      | _ => strokes_from ctx calls
      end
  end.

Definition strokes (calls : list canvas_call) : list stroked :=
  strokes_from fresh_context calls.

(** The calls that only fill: they stroke nothing and leave the line
    width, the stroke style and the path alone. *)
Definition fills_only (c : canvas_call) : Prop :=
  match c with
  | SetImageSmoothingEnabled _ | SetFillStyle _ | FillRect _ _ _ _ => True
  | _ => False
  end.

(** ** The event loop *)

Inductive event :=
| PointerDown (x y : Z)
| PointerEnter (x y : Z)
| PointerUp
| ClearAll
| FillBackground
| Undo
| Redo
| SizeChange (n : Z)      (* grid-size input; [parseInt] returned the integer [n] *)
| SizeChangeNaN           (* grid-size input; [parseInt] returned [NaN] *)
| PixelSizeChange (n : Z)
| ShowGridChange (b : bool)
| PenClick
| EraserClick
| EyedropClick
| ColorChange (c : string)
| PaletteClick (i : nat)
| AddToPalette
| RemoveFromPalette
| ImportJSON (file : option (option value)).

Definition handle (e : event) (st : State) : option State :=
  match e with
  | PointerDown x y => Some (onPointerDown x y st)
  | PointerEnter x y => Some (onPointerEnter x y st)
  | PointerUp => Some (onPointerUp st)
  | ClearAll => Some (clearAll st)
  | FillBackground => Some (fillBackground st)
  | Undo => Some (undo st)
  | Redo => Some (redo st)
  | SizeChange n => onSizeChange (int n) st
  | SizeChangeNaN => onSizeChange NaN st
  | PixelSizeChange n => Some (setPixelSize n st)
  | ShowGridChange b => Some (setShowGrid b st)
  | PenClick => Some (setTool "pen" st)
  | EraserClick => Some (setTool "eraser" st)
  | EyedropClick => Some (setTool "eyedropper" st)
  | ColorChange c => Some (setCurrentColor (VStr c) st)
  | PaletteClick i =>
      match palette st !! i with
      | Some c => Some (setCurrentColor c st)
      | None => Some st
      end
  | AddToPalette => Some (addToPalette st)
  | RemoveFromPalette => Some (removeFromPalette st)
  | ImportJSON file => fst <$> importJSON file st
  end.

(** One event: the handler, then the effect keyed on [size] when the
    handler changed [size].  [None]: the handler stored a size that is no
    integer (see [setSizeNumber]). *)
Definition step (st : State) (e : event) : option State :=
  st' ← handle e st;
  Some (if size st' =? size st then st' else sizeEffect st').

Fixpoint run (evs : list event) (st : State) : option State :=
  match evs with
  | [] => Some st
  | e :: evs => st' ← step st e; run evs st'
  end.

(** The state of a first visit: the defaults of the [useLocalStorage]
    cells, after the effect of the first render. *)
Definition initial : State :=
  sizeEffect
    (mkState 32 16 true (VStr "#1f2937")
       [VStr "#000000"; VStr "#ffffff"; VStr "#ef4444"; VStr "#f59e0b";
        VStr "#10b981"; VStr "#3b82f6"; VStr "#8b5cf6"]
       "pen" (blank 32) [] [] false).



(** The events that commit an edit: the handlers that call [pushHistory]. *)
Definition commits (e : event) : bool :=
  match e with
  | PointerDown _ _ | ClearAll | FillBackground => true
  | _ => false
  end.

Definition is_undo (e : event) : bool :=
  match e with Undo => true | _ => false end.

(** One undoable action: a gesture (pointer down on a cell, the cells the
    pointer enters while dragging, pointer up), "Clear" or "Fill canvas". *)
Inductive action :=
| Gesture (x y : Z) (moves : list (Z * Z))
| Clear
| Fill.

Definition events_of (a : action) : list event :=
  match a with
  | Gesture x y moves =>
      PointerDown x y :: map (λ p, PointerEnter (fst p) (snd p)) moves ++ [PointerUp]
  | Clear => [ClearAll]
  | Fill => [FillBackground]
  end.

(** The state after an action; it is what [run (events_of a)] yields. *)
Definition perform (a : action) (st : State) : State :=
  match a with
  | Gesture x y moves =>
      onPointerUp (foldl (λ s p, onPointerEnter (fst p) (snd p) s)
                         (onPointerDown x y st) moves)
  | Clear => clearAll st
  | Fill => fillBackground st
  end.

(** ** Well-formed grids, sessions and the filled bitmap *)

(** [(x, y)] is a cell of the grid: the cells the component renders and
    attaches pointer handlers to. *)
Definition in_grid (st : State) (x y : Z) : Prop :=
  0 ≤ x < size st ∧ 0 ≤ y < size st.

(** A buffer with one entry per cell of a grid of side [sz]. *)
Definition full_buffer (sz : Z) (l : list value) : Prop :=
  Z.of_nat (length l) = sz * sz.

(** The live buffer and every snapshot of the history fit the grid. *)
Definition grid_ok (st : State) : Prop :=
  full_buffer (size st) (pixels st)
  ∧ Forall (full_buffer (size st)) (undoStack st)
  ∧ Forall (full_buffer (size st)) (redoStack st).

(** Pointer events come from rendered cells. *)
Definition from_grid (st : State) (e : event) : Prop :=
  match e with
  | PointerDown x y | PointerEnter x y => in_grid st x y
  | _ => True
  end.

(** The events whose handler calls [setSize]. *)
Definition sets_size (e : event) : bool :=
  match e with
  | SizeChange _ | SizeChangeNaN | ImportJSON _ => true
  | _ => false
  end.

(** Several actions, one after the other. *)
Definition perform_all (acts : list action) (st : State) : State :=
  foldl (λ s a, perform a s) st acts.


(** The last fill over the unit square [(px, py)] of the canvas in a
    sequence of calls: the colour the square shows when that colour is
    opaque.  [ctx.fillStyle = v] parses [v] as a CSS colour: [css v] is
    that colour, or [None] when [v] is no colour, and then the assignment
    is ignored.  [fillRect(x, y, w, h)] fills the squares with
    [x <= px < x + w] and [y <= py < y + h] in the fill style then in
    force.  [cur] is the last fill so far, [None] for a square that was
    not filled. *)
Fixpoint filled_from (css : value → option string) (style : string)
    (cur : option string) (calls : list canvas_call) (px py : Z) : option string :=
  match calls with
  | [] => cur
  | c :: calls =>
      match c with
      | SetFillStyle v =>
          filled_from css (default style (css v)) cur calls px py
      | FillRect x y w h =>
          let cur' := if (x <=? px) && (px <? x + w) && (y <=? py) && (py <? y + h)
                      then Some style else cur in
          filled_from css style cur' calls px py
      | _ => filled_from css style cur calls px py
      end
  end.

(** On a fresh canvas: nothing filled, [fillStyle = "#000000"]. *)
Definition filled_at (css : value → option string) (calls : list canvas_call)
    (px py : Z) : option string :=
  filled_from css "#000000" None calls px py.

(** The buffers of the session in the order they were produced: the undo
    stack (oldest first), the live buffer, and the redo stack from its top
    down. *)
Definition timeline (st : State) : list (list value) :=
  undoStack st ++ [pixels st] ++ reverse (redoStack st).

Definition is_import (e : event) : bool :=
  match e with ImportJSON _ => true | _ => false end.


(** The events whose handler stores a size that is no integer: a size
    input in which [parseInt] finds no number, which stores [NaN], and a
    document that passes validation with a size that, clamped, is no
    integer. *)
Definition fatal (e : event) : bool :=
  match e with
  | SizeChangeNaN => true
  | ImportJSON (Some (Some data)) =>
      truthy data
      && String.eqb (typeof (get data "size")) "number"
      && Array_isArray (get data "pixels")
      && negb (bool_decide (is_Some (to_int (clamp (num_of (get data "size"))
                                                   (int 2) (int 256)))))
  | _ => false
  end.

(** The fill style after the paint loop has visited cells with the
    values [cells], in that order, starting from [style]: a truthy value
    is assigned to [ctx.fillStyle], and the assignment takes effect when
    the value is a colour. *)
Definition style_after (css : value → option string) (style : string)
    (cells : list value) : string :=
  foldl (λ s c, if truthy c then default s (css c) else s) style cells.

(** The cells the paint loop of [exportPNG] visits before [(x, y)]: the
    rows above, then the cells to the left. *)
Definition cells_before (st : State) (x y : Z) : list (Z * Z) :=
  flat_map (λ y', map (λ x', (x', y')) (seqZ 0 (size st))) (seqZ 0 y)
  ++ map (λ x', (x', y)) (seqZ 0 x).
(** * Facts about the value model *)

Module JSFacts.

Lemma Qred_inject_Z (z : Z) : Qred (inject_Z z) = inject_Z z.
Proof.
  unfold Qred, inject_Z.
  pose proof (Z.ggcd_gcd z 1) as Hg.
  pose proof (Z.ggcd_correct_divisors z 1) as Hd.
  destruct (Z.ggcd z 1) as [g [aa bb]]. simpl in *.
  rewrite Z.gcd_1_r in Hg. subst g. destruct Hd as [Ha Hb].
  assert (aa = z) as -> by lia. assert (bb = 1) as -> by lia. reflexivity.
Qed.

Lemma to_int_int (z : Z) : to_int (int z) = Some z.
Proof. unfold to_int, int. simpl. by rewrite Qred_inject_Z. Qed.

Lemma num_eqb_spec (a b : number) : num_eqb a b = true ↔ a = b.
Proof.
  destruct a, b; simpl; try (split; [done|congruence]); try done.
  rewrite Qeq_bool_iff. split; [intros H; f_equal; by apply Qc_is_canon|by intros [= ->]].
Qed.

(** A number that is an integer is the number of that integer. *)
Lemma to_int_Some (n : number) (z : Z) : to_int n = Some z → n = int z.
Proof.
  destruct n as [| | |q]; try done. unfold to_int.
  destruct (Pos.eqb_spec (Qden (this q)) 1) as [Hden|]; [|done]. intros [= <-].
  unfold int. f_equal. apply Qc_is_canon. simpl. rewrite Qred_inject_Z.
  destruct (this q) as [num den]. simpl in *. by subst den.
Qed.

Lemma int_inj (a b : Z) : int a = int b → a = b.
Proof. intros H. apply (f_equal to_int) in H. rewrite !to_int_int in H. congruence. Qed.

Lemma num_leb_int (a b : Z) : num_leb (int a) (int b) = (a <=? b).
Proof.
  unfold num_leb, int. simpl. rewrite !Qred_inject_Z. unfold Qle_bool. simpl.
  f_equal; lia.
Qed.

Lemma num_leb_refl (n : number) : n ≠ NaN → num_leb n n = true.
Proof. destruct n; try done. intros _. simpl. apply Qle_bool_iff, Qle_refl. Qed.

Lemma num_leb_total (a b : number) :
  a ≠ NaN → b ≠ NaN → num_leb a b = false → num_leb b a = true.
Proof.
  destruct a, b; simpl; try done. intros _ _ Hab.
  apply Qle_bool_iff, Qlt_le_weak, Qnot_le_lt. intros Hle.
  apply Qle_bool_iff in Hle. congruence.
Qed.

(** [clamp] on integers. *)
Lemma num_leb_trans (a b c : number) :
  num_leb a b = true → num_leb b c = true → num_leb a c = true.
Proof.
  destruct a, b, c; simpl; try done. rewrite !Qle_bool_iff. apply Qle_trans.
Qed.

Lemma Math_min_leb (a b : number) :
  a ≠ NaN → b ≠ NaN → Math_min a b = if num_leb a b then a else b.
Proof. by destruct a, b. Qed.

Lemma Math_max_leb (a b : number) :
  a ≠ NaN → b ≠ NaN → Math_max a b = if num_leb a b then b else a.
Proof. by destruct a, b. Qed.


Lemma clamp_int (n lo hi : Z) :
  clamp (int n) (int lo) (int hi) = int (Z.max lo (Z.min hi n)).
Proof.
  unfold clamp.
  assert (∀ a b, Math_min (int a) (int b) = int (Z.min a b)) as Hmin.
  { intros a b. unfold Math_min. change (int a) with (Fin (Q2Qc (inject_Z a))) at 1.
    change (int b) with (Fin (Q2Qc (inject_Z b))) at 1. fold (int a) (int b).
    rewrite num_leb_int. destruct (Z.leb_spec a b); f_equal; lia. }
  assert (∀ a b, Math_max (int a) (int b) = int (Z.max a b)) as Hmax.
  { intros a b. unfold Math_max. change (int a) with (Fin (Q2Qc (inject_Z a))) at 1.
    change (int b) with (Fin (Q2Qc (inject_Z b))) at 1. fold (int a) (int b).
    rewrite num_leb_int. destruct (Z.leb_spec a b); f_equal; lia. }
  by rewrite Hmin, Hmax.
Qed.

Lemma clamp_NaN (lo hi : number) : clamp NaN lo hi = NaN.
Proof. unfold clamp, Math_min, Math_max. by destruct hi, lo. Qed.

(** [clamp(n, lo, hi)] is [lo], [hi] or [n], and lies between [lo] and
    [hi], unless [n] is [NaN]. *)
Lemma clamp_bounds (n lo hi : number) :
  n ≠ NaN → lo ≠ NaN → hi ≠ NaN → num_leb lo hi = true →
  num_leb lo (clamp n lo hi) = true ∧ num_leb (clamp n lo hi) hi = true
  ∧ (clamp n lo hi = n ↔ num_leb lo n = true ∧ num_leb n hi = true).
Proof.
  intros Hn Hlo Hhi Hle. unfold clamp.
  assert (Math_min hi n = if num_leb hi n then hi else n) as -> by (by destruct hi, n).
  destruct (num_leb hi n) eqn:Hhn.
  - assert (Math_max lo hi = hi) as ->.
    { unfold Math_max. rewrite Hle. by destruct lo, hi. }
    split; [done|]. split; [by apply num_leb_refl|]. split.
    + intros ->. split; [done|by apply num_leb_refl].
    + intros [_ Hnh]. destruct hi as [| | |h], n as [| | |m]; simpl in *; try done.
      f_equal. apply Qc_is_canon, Qle_antisym; by apply Qle_bool_iff.
  - pose proof (num_leb_total hi n Hhi Hn Hhn) as Hnh.
    assert (Math_max lo n = if num_leb lo n then n else lo) as -> by (by destruct lo, n).
    destruct (num_leb lo n) eqn:Hln.
    + done.
    + split; [by apply num_leb_refl|]. split; [done|]. split; [|by intros [? _]].
      intros ->. by rewrite num_leb_refl in Hln.
Qed.

(** An integer result of the component's clamp lies in [2, 256]. *)
Lemma clamp_to_int (n : number) (z : Z) :
  to_int (clamp n (int 2) (int 256)) = Some z → 2 ≤ z ≤ 256.
Proof.
  intros Hz. assert (n ≠ NaN) as Hn.
  { intros ->. by rewrite clamp_NaN in Hz. }
  destruct (clamp_bounds n (int 2) (int 256)) as (Hlo & Hhi & _); [done..|].
  apply to_int_Some in Hz. rewrite Hz in Hlo, Hhi.
  rewrite num_leb_int in Hlo, Hhi. lia.
Qed.

Lemma map_forallb_spec {A} (f : string → A → bool) (m : gmap string A) :
  map_forallb f m = true ↔ map_Forall (λ k x, f k x = true) m.
Proof.
  unfold map_forallb.
  induction m as [|i x m Hi Hfst IH] using map_first_key_ind.
  - rewrite map_fold_empty. split; [intros _; apply map_Forall_empty|done].
  - rewrite map_fold_insert_first_key by done.
    rewrite andb_true_iff, IH, map_Forall_insert by done. done.
Qed.

Lemma vsize_elem (l : list value) x :
  x ∈ l → (vsize x ≤ foldr (λ x acc, vsize x + acc) 0 l)%nat.
Proof. induction 1; simpl; lia. Qed.

Lemma vsize_field (m : gmap string value) k x :
  m !! k = Some x → (vsize x ≤ map_fold (λ _ x acc, vsize x + acc) 0 m)%nat.
Proof.
  induction m as [|i y m Hi Hfst IH] using map_first_key_ind.
  - by rewrite lookup_empty.
  - rewrite map_fold_insert_first_key by done.
    destruct (decide (i = k)) as [->|Hne].
    + rewrite lookup_insert_eq. intros [= ->]. lia.
    + rewrite lookup_insert_ne by done. intros Hk. specialize (IH Hk). lia.
Qed.

(** Induction over values, through arrays and objects. *)
Lemma value_ind' (P : value → Prop) :
  P VUndef → P VNull → (∀ b, P (VBool b)) → (∀ n, P (VNum n)) →
  (∀ s, P (VStr s)) →
  (∀ r l, Forall P l → P (VArr r l)) →
  (∀ r m, map_Forall (λ _, P) m → P (VObj r m)) →
  ∀ v, P v.
Proof.
  intros Hu Hn Hb Hz Hs Ha Ho v.
  remember (vsize v) as n eqn:Hsz. revert v Hsz.
  induction (lt_wf n) as [n _ IH]. intros v ->.
  destruct v as [| | | | |r l|r m]; auto.
  - apply Ha, Forall_forall. intros x Hx.
    apply (IH (vsize x)); [|done]. simpl. pose proof (vsize_elem l x Hx). lia.
  - apply Ho. intros k x Hk.
    apply (IH (vsize x)); [|done]. simpl. pose proof (vsize_field m k x Hk). lia.
Qed.

Lemma same_value_spec (a b : value) : same_value a b = true ↔ a = b.
Proof.
  revert b. induction a as [| |x|x|x|r l IH|r m IH] using value_ind'; intros b;
    destruct b as [| |y|y|y|r' l'|r' m']; simpl; try (split; [done|congruence]); try done.
  - rewrite Bool.eqb_true_iff. split; congruence.
  - rewrite num_eqb_spec. split; congruence.
  - rewrite String.eqb_eq. split; congruence.
  - rewrite andb_true_iff, Nat.eqb_eq.
    assert ((fix go (l1 l2 : list value) : bool :=
               match l1, l2 with
               | [], [] => true
               | x :: l1, y :: l2 => same_value x y && go l1 l2
               | _, _ => false
               end) l l' = true ↔ l = l') as ->.
    { revert l'. induction IH as [|x l Hx _ IHl]; intros [|y l'];
        try (split; [done|congruence]); try done.
      rewrite andb_true_iff, Hx, IHl.
      split; [intros [-> [= ->]]; done|intros [= -> ->]; done]. }
    split; [by intros [-> ->]|by intros [= -> ->]].
  - rewrite !andb_true_iff, map_forallb_spec, !Nat.eqb_eq. split.
    + intros [[-> Hall] Hsz]. f_equal. apply map_subseteq_size_eq; [|lia].
      apply map_subseteq_spec. intros k x Hk.
      specialize (Hall k x Hk). simpl in Hall.
      destruct (m' !! k) as [y|] eqn:Hy; [|done].
      apply (IH k x Hk) in Hall. by subst.
    + intros [= <- <-]. split; [split; [done|]|done]. intros k x Hk. simpl. rewrite Hk.
      by apply (IH k x Hk).
Qed.

Lemma same_value_refl (a : value) : same_value a a = true.
Proof. by apply same_value_spec. Qed.

Lemma same_value_false (a b : value) : same_value a b = false ↔ a ≠ b.
Proof. rewrite <-not_true_iff_false, same_value_spec. done. Qed.

(** [===] holds between a value and itself only, and does so unless the
    value is [NaN]. *)
Lemma strict_eq_sound (a b : value) : strict_eq a b = true → a = b.
Proof.
  unfold strict_eq. intros H. apply same_value_spec.
  by destruct a as [| | |[]| | |].
Qed.

Lemma strict_eq_refl (a : value) : a ≠ VNum NaN → strict_eq a a = true.
Proof.
  intros Ha. unfold strict_eq.
  destruct a as [| | |[]| | |]; try done; apply same_value_refl.
Qed.

Lemma strict_eq_ne (a b : value) : a ≠ b → strict_eq a b = false.
Proof.
  intros Hne. destruct (strict_eq a b) eqn:Heq; [|done].
  by apply strict_eq_sound in Heq.
Qed.

Lemma JSON_clone_id (v : value) : is_json v = true → JSON_clone v = v.
Proof.
  induction v as [| | | | |r l IH|r m IH] using value_ind'; simpl; try done.
  - by intros ->.
  - intros Hall. f_equal. rewrite forallb_forall in Hall.
    rewrite <-(map_id l) at 2. apply map_ext_in. intros x Hx.
    rewrite Forall_forall in IH. apply list_elem_of_In in Hx as Hx'.
    specialize (IH x Hx' (Hall x Hx)). specialize (Hall x Hx).
    destruct x; try done.
  - rewrite map_forallb_spec. intros Hall. f_equal.
    apply map_eq. intros k. rewrite lookup_omap.
    destruct (m !! k) as [x|] eqn:Hk; [|done]. simpl.
    specialize (IH k x Hk (Hall k x Hk)). specialize (Hall k x Hk). simpl in Hall.
    destruct x; try done; exact (f_equal Some IH).
Qed.

(** A primitive is its own contents, and only it has these contents. *)
Lemma erase_primitive (v : value) : primitive v = true → erase v = v.
Proof. by destruct v. Qed.

Lemma erase_primitive_inv (v v' : value) :
  primitive v = true → erase v' = v → v' = v.
Proof. intros Hv <-. by destruct v'. Qed.

End JSFacts.
(** * Arrays *)

Section Arrays.

Implicit Types (l : list value).

Lemma arr_get_in_range l i :
  0 ≤ i < Z.of_nat (length l) → l !! Z.to_nat i = Some (arr_get l i).
Proof.
  intros Hi. unfold arr_get.
  destruct (Z.leb_spec 0 i); [|lia].
  destruct (lookup_lt_is_Some_2 l (Z.to_nat i)) as [v Hv]; [lia|].
  by rewrite Hv.
Qed.

Lemma arr_get_out_of_range l i :
  Z.of_nat (length l) ≤ i → arr_get l i = VUndef.
Proof.
  intros Hi. unfold arr_get. destruct (Z.leb_spec 0 i); [|done].
  by rewrite lookup_ge_None_2 by lia.
Qed.

Lemma arr_set_in_range l i v :
  0 ≤ i < Z.of_nat (length l) → arr_set l i v = <[Z.to_nat i := v]> l.
Proof.
  intros Hi. unfold arr_set.
  destruct (Z.ltb_spec i 0); [lia|].
  destruct (Z.ltb_spec i (Z.of_nat (length l))); [done|lia].
Qed.


Lemma arr_set_negative l i v : i < 0 → arr_set l i v = l.
Proof. intros Hi. unfold arr_set. by destruct (Z.ltb_spec i 0); [|lia]. Qed.

Lemma arr_get_insert_ne l i j v :
  0 ≤ i → 0 ≤ j → i ≠ j →
  arr_get (<[Z.to_nat i := v]> l) j = arr_get l j.
Proof.
  intros Hi Hj Hne. unfold arr_get. destruct (Z.leb_spec 0 j); [|done].
  by rewrite list_lookup_insert_ne by lia.
Qed.

(** The updater of [handlePaint] on a buffer whose entry already is the
    value: the buffer it returns has the contents it had, also where the
    test fails (a [NaN] entry is rewritten by [NaN]). *)
Lemma paint_same l i v :
  arr_get l i = v → (if strict_eq (arr_get l i) v then l else arr_set l i v) = l.
Proof.
  intros Hv. destruct (strict_eq (arr_get l i) v) eqn:Heq; [done|].
  destruct (Z.lt_ge_cases i 0) as [Hneg|Hpos]; [by apply arr_set_negative|].
  destruct (Z.lt_ge_cases i (Z.of_nat (length l))) as [Hin|Hout].
  - rewrite arr_set_in_range by lia. apply list_insert_id.
    by rewrite arr_get_in_range, Hv by lia.
  - rewrite arr_get_out_of_range in Hv, Heq by done. by subst v.
Qed.

End Arrays.

(** * History: undo, redo and the snapshots taken by [pushHistory] *)

Section History.

Implicit Types (st : State) (e : event).

Lemma last_take_snoc {A} (l : list A) (x : A) :
  last (l ++ [x]) = Some x ∧ take (length (l ++ [x]) - 1) (l ++ [x]) = l.
Proof.
  split; [apply last_snoc|].
  rewrite length_app. simpl.
  replace (length l + 1 - 1)%nat with (length l) by lia.
  by rewrite take_app_length.
Qed.

(** Painting touches neither stack, nor anything but the buffer. *)
Lemma handlePaint_frame x y c st :
  handlePaint x y c st = setPixels (pixels (handlePaint x y c st)) st.
Proof. done. Qed.

Lemma onPointerEnter_frame x y st :
  onPointerEnter x y st = setPixels (pixels (onPointerEnter x y st)) st.
Proof.
  unfold onPointerEnter. destruct st; simpl.
  repeat case_match; done.
Qed.

(** A handler that leaves the size alone is followed by no effect. *)
Lemma step_keeps_size st e st' :
  handle e st = Some st' → size st' = size st → step st e = Some st'.
Proof. unfold step. intros -> Hs. simpl. by rewrite Hs, Z.eqb_refl. Qed.

Lemma step_PointerEnter x y st :
  step st (PointerEnter x y) = Some (onPointerEnter x y st).
Proof. apply step_keeps_size; [done|]. by rewrite onPointerEnter_frame. Qed.

Lemma bind_Some {A B} (x : A) (f : A → option B) : Some x ≫= f = f x.
Proof. done. Qed.

Lemma run_cons e (evs : list event) st :
  run (e :: evs) st = step st e ≫= run evs.
Proof. done. Qed.

Lemma run_app (evs1 evs2 : list event) st :
  run (evs1 ++ evs2) st = run evs1 st ≫= run evs2.
Proof.
  revert st. induction evs1 as [|e evs1 IH]; intros st; [done|].
  simpl. destruct (step st e) as [st'|]; simpl; [apply IH|done].
Qed.

(** A drag changes the buffer only. *)
Lemma drag_frame (moves : list (Z * Z)) st :
  ∃ p, foldl (λ s p, onPointerEnter (fst p) (snd p) s) st moves = setPixels p st.
Proof.
  revert st. induction moves as [|[x y] moves IH]; intros st.
  - exists (pixels st). by destruct st.
  - simpl. destruct (IH (onPointerEnter x y st)) as [p Hp].
    exists p. rewrite Hp. by rewrite onPointerEnter_frame.
Qed.

Lemma run_moves (moves : list (Z * Z)) st :
  run (map (λ p, PointerEnter (fst p) (snd p)) moves) st
  = Some (foldl (λ s p, onPointerEnter (fst p) (snd p) s) st moves).
Proof.
  revert st. induction moves as [|[x y] moves IH]; intros st; [done|].
  rewrite map_cons, run_cons, step_PointerEnter. simpl. apply IH.
Qed.

Lemma onPointerDown_stacks x y st :
  undoStack (onPointerDown x y st) = undoStack st ++ [pixels st]
  ∧ redoStack (onPointerDown x y st) = []
  ∧ size (onPointerDown x y st) = size st.
Proof. unfold onPointerDown. repeat case_match; done. Qed.

(** The events of an action run to the state [perform] gives. *)
Lemma run_events_of (a : action) st : run (events_of a) st = Some (perform a st).
Proof.
  destruct a as [x y moves| |]; unfold events_of, perform.
  - destruct (onPointerDown_stacks x y st) as (_ & _ & Hs).
    rewrite run_cons, (step_keeps_size st _ (onPointerDown x y st)) by done.
    rewrite bind_Some, run_app, run_moves, bind_Some, run_cons.
    set (s := foldl _ _ _).
    by rewrite (step_keeps_size s PointerUp (onPointerUp s)).
  - by rewrite run_cons, (step_keeps_size st ClearAll (clearAll st)).
  - by rewrite run_cons, (step_keeps_size st FillBackground (fillBackground st)).
Qed.

(** Every action leaves the pre-action buffer on top of the undo stack
    and an empty redo stack. *)
Lemma perform_stacks (a : action) st :
  undoStack (perform a st) = undoStack st ++ [pixels st]
  ∧ redoStack (perform a st) = [].
Proof.
  destruct a as [x y moves| |]; [|done..]. simpl.
  destruct (onPointerDown_stacks x y st) as (Hu & Hr & Hs).
  destruct (drag_frame moves (onPointerDown x y st)) as [p ->]. done.
Qed.

Lemma undo_top st prev :
  last (undoStack st) = Some prev →
  undo st = setUndoStack (take (length (undoStack st) - 1) (undoStack st))
              (setPixels prev (setRedoStack (redoStack st ++ [pixels st]) st)).
Proof. unfold undo. by intros ->. Qed.

Lemma redo_top st next :
  last (redoStack st) = Some next →
  redo st = setRedoStack (take (length (redoStack st) - 1) (redoStack st))
              (setPixels next (setUndoStack (undoStack st ++ [pixels st]) st)).
Proof. unfold redo. by intros ->. Qed.

(** [undo] after a state whose undo stack ends in [prev]; [redo] right
    after it brings the buffer back. *)
Lemma undo_redo_top st u prev :
  undoStack st = u ++ [prev] →
  pixels (undo st) = prev ∧ pixels (redo (undo st)) = pixels st
  ∧ undoStack (undo st) = u ∧ undoStack (redo (undo st)) = undoStack st
  ∧ redoStack (redo (undo st)) = redoStack st.
Proof.
  intros Hu. destruct (last_take_snoc u prev) as [Hl Ht].
  rewrite (undo_top st prev) by (by rewrite Hu).
  rewrite Hu, Ht.
  destruct (last_take_snoc (redoStack st) (pixels st)) as [Hl' Ht'].
  erewrite redo_top by (simpl; exact Hl'). simpl.
  rewrite Ht'. done.
Qed.

(** An import leaves everything but size, buffer and palette. *)
Lemma importJSON_keeps file st st' a :
  importJSON file st = Some (st', a) →
  undoStack st' = undoStack st ∧ redoStack st' = redoStack st
  ∧ tool st' = tool st ∧ currentColor st' = currentColor st
  ∧ drawing st' = drawing st.
Proof.
  destruct file as [[data|]|]; simpl; [|by intros [= <- <-]..].
  case_match; [by intros [= <- <-]|].
  unfold setSizeNumber. destruct (to_int _) as [z|]; [|done]. simpl.
  case_match; by intros [= <- <-].
Qed.

Lemma handle_redo_length st e st' :
  handle e st = Some st' →
  (length (redoStack st') ≤ length (redoStack st) + (if is_undo e then 1 else 0))%nat.
Proof.
  destruct e; simpl; intros Hh.
  all: try (injection Hh as <-).
  all: try (simpl; lia).
  - destruct (onPointerDown_stacks x y st) as (_ & -> & _). simpl. lia.
  - rewrite onPointerEnter_frame. simpl. lia.
  - unfold undo. case_match; simpl; [rewrite length_app; simpl|]; lia.
  - unfold redo. case_match; simpl; [rewrite length_take|]; lia.
  - unfold onSizeChange, setSizeNumber in Hh.
    destruct (to_int _); simpl in Hh; [injection Hh as <-|done]. simpl. lia.
  - unfold onSizeChange, setSizeNumber in Hh.
    destruct (to_int _); simpl in Hh; [injection Hh as <-|done]. simpl. lia.
  - destruct (palette st !! i); injection Hh as <-; simpl; lia.
  - destruct (importJSON file st) as [[s a]|] eqn:Himp; simpl in Hh; [|done].
    injection Hh as <-.
    destruct (importJSON_keeps _ _ _ _ Himp) as (_ & -> & _). lia.
Qed.

Lemma step_redo_length st e st' :
  step st e = Some st' →
  (length (redoStack st') ≤ length (redoStack st) + (if is_undo e then 1 else 0))%nat.
Proof.
  unfold step. destruct (handle e st) as [s|] eqn:Hh; [|done]. simpl.
  intros [= <-]. pose proof (handle_redo_length st e s Hh).
  by destruct (size s =? size st).
Qed.

Lemma run_redo_length (evs : list event) st st' :
  run evs st = Some st' →
  (length (redoStack st')
   ≤ length (redoStack st) + length (List.filter is_undo evs))%nat.
Proof.
  revert st. induction evs as [|e evs IH]; intros st; simpl.
  { intros [= <-]. lia. }
  destruct (step st e) as [s|] eqn:Hs; [|done]. simpl. intros Hrun.
  specialize (IH s Hrun). pose proof (step_redo_length st e s Hs).
  destruct (is_undo e); simpl; lia.
Qed.

Lemma step_commit st e :
  commits e = true → ∃ st', step st e = Some st' ∧ redoStack st' = [].
Proof.
  destruct e; try done; intros _.
  - exists (onPointerDown x y st).
    destruct (onPointerDown_stacks x y st) as (_ & Hr & Hs).
    split; [by apply step_keeps_size|done].
  - exists (clearAll st). split; [by apply step_keeps_size|done].
  - exists (fillBackground st). split; [by apply step_keeps_size|done].
Qed.

End History.

(** C1. After any single committed action (a gesture, "Clear" or "Fill
    canvas") the undo stack is non-empty, [undo] restores exactly the buffer
    from before the action, and [redo] right after that [undo] restores
    exactly the buffer from after the action.  [undo] with an empty undo
    stack and [redo] with an empty redo stack change nothing. *)
Theorem undo_redo_round_trip (st : State) (a : action) :
  undoStack (perform a st) ≠ []
  ∧ pixels (undo (perform a st)) = pixels st
  ∧ pixels (redo (undo (perform a st))) = pixels (perform a st)
  ∧ (undoStack st = [] → undo st = st)
  ∧ (redoStack st = [] → redo st = st).
Proof.
  destruct (perform_stacks a st) as [Hu Hr].
  destruct (undo_redo_top _ _ _ Hu) as (H1 & H2 & _).
  repeat split; try done.
  - rewrite Hu. by destruct (undoStack st).
  - unfold undo. by intros ->.
  - unfold redo. by intros ->.
Qed.

Lemma undo_redo_round_trip_witness :
  undo initial = initial ∧ redo initial = initial
  ∧ pixels (undo (perform (Gesture 1 1 [(2, 1); (3, 1)]) initial)) = pixels initial.
Proof.
  destruct (undo_redo_round_trip initial (Gesture 1 1 [(2, 1); (3, 1)]))
    as (_ & Hundo & _ & Hu & Hr).
  split; [apply Hu; reflexivity|].
  split; [apply Hr; reflexivity|].
  exact Hundo.
Defined.

(** C2. [pushHistory] empties the redo stack; so does every event that
    commits an edit (pointer down, "Clear", "Fill canvas"), and none of
    them stops the component.  Hence, in any run, the redo stack holds at
    most one entry per [undo] since the last committed edit: nothing from
    before that edit is left on it. *)
Theorem record_clears_redo :
  (∀ prev st, redoStack (pushHistory prev st) = []
              ∧ undoStack (pushHistory prev st) = undoStack st ++ [prev])
  ∧ (∀ st e, commits e = true → ∃ st', step st e = Some st' ∧ redoStack st' = [])
  ∧ (∀ evs e evs' st st', commits e = true →
       run (evs ++ e :: evs') st = Some st' →
       (length (redoStack st') ≤ length (List.filter is_undo evs'))%nat).
Proof.
  split; [done|]. split; [apply step_commit|].
  intros evs e evs' st st' He. rewrite run_app.
  destruct (run evs st) as [s|]; [|done]. simpl.
  destruct (step_commit s e He) as (s' & -> & Hr). simpl. intros Hrun.
  pose proof (run_redo_length evs' s' st' Hrun) as H. by rewrite Hr in H.
Qed.

Lemma record_clears_redo_witness :
  (∃ st', step initial ClearAll = Some st' ∧ redoStack st' = [])
  ∧ (∃ st', run ([PointerDown 0 0; PointerUp; Undo]
                 ++ PointerDown 1 1 :: [PointerUp]) initial = Some st'
            ∧ (length (redoStack st') ≤ 0)%nat).
Proof.
  destruct record_clears_redo as (_ & Hstep & Hrun).
  split; [apply Hstep; reflexivity|].
  eexists. split; [reflexivity|].
  apply (Hrun [PointerDown 0 0; PointerUp; Undo] (PointerDown 1 1) [PointerUp] initial);
    reflexivity.
Defined.

(** C10. Every pointer-down pushes exactly one snapshot, the current
    buffer, onto the undo stack and empties the redo stack, and the rest
    of the gesture pushes nothing more.  When the pointer-down changes
    nothing (the eyedropper, or the pen or eraser on a cell that already
    holds the value), the buffer stays as it was and the [undo] of that
    step restores a buffer identical to the current one. *)
Theorem pointer_down_always_records (st : State) (x y : Z) :
  undoStack (onPointerDown x y st) = undoStack st ++ [pixels st]
  ∧ redoStack (onPointerDown x y st) = []
  ∧ (∀ moves, undoStack (perform (Gesture x y moves) st) = undoStack st ++ [pixels st]
              ∧ redoStack (perform (Gesture x y moves) st) = [])
  ∧ (tool st = "eyedropper"
     ∨ (tool st = "pen" ∧ arr_get (pixels st) (idx st x y) = currentColor st)
     ∨ (tool st = "eraser" ∧ arr_get (pixels st) (idx st x y) = VNull) →
     pixels (onPointerDown x y st) = pixels st
     ∧ pixels (undo (onPointerDown x y st)) = pixels (onPointerDown x y st)).
Proof.
  destruct (onPointerDown_stacks x y st) as (Hu & Hr & _).
  split; [done|]. split; [done|].
  split; [intros moves; apply (perform_stacks (Gesture x y moves))|]. intros Hcase.
  assert (pixels (onPointerDown x y st) = pixels st) as Hsame.
  { unfold onPointerDown, handlePaint.
    destruct Hcase as [->|[[-> Hc]|[-> Hc]]]; simpl; [done|..].
    - unfold idx in *. simpl. by apply paint_same.
    - unfold idx in *. simpl. by apply paint_same. }
  split; [done|].
  destruct (undo_redo_top _ _ _ Hu) as (-> & _). done.
Qed.

Lemma pointer_down_always_records_witness :
  pixels (onPointerDown 3 4 (setTool "eyedropper" initial)) = pixels initial
  ∧ undoStack (onPointerDown 3 4 (setTool "eyedropper" initial)) = [pixels initial].
Proof.
  destruct (pointer_down_always_records (setTool "eyedropper" initial) 3 4)
    as (Hu & _ & _ & Hsame).
  split; [apply Hsame; left; reflexivity|exact Hu].
Defined.

(** * Grid store: painting a cell and the reset on a size change *)

Section Grid.

Implicit Types (st : State) (l : list value).

Lemma idx_in_range st x y :
  0 ≤ x < size st → 0 ≤ y < size st →
  Z.of_nat (length (pixels st)) = size st * size st →
  0 ≤ idx st x y < Z.of_nat (length (pixels st)).
Proof. unfold idx. intros Hx Hy ->. nia. Qed.


Lemma length_Array_fill n v : 0 ≤ n → Z.of_nat (length (Array_fill n v)) = n.
Proof. intros Hn. unfold Array_fill. rewrite length_replicate. lia. Qed.


(** The grid-size input with an integer. *)
Lemma onSizeChange_int (n : Z) st :
  onSizeChange (int n) st = Some (setSize (Z.max 2 (Z.min 256 n)) st).
Proof.
  unfold onSizeChange, setSizeNumber.
  by rewrite JSFacts.clamp_int, JSFacts.to_int_int.
Qed.

Lemma step_SizeChange (n : Z) st :
  step st (SizeChange n)
  = Some (if Z.max 2 (Z.min 256 n) =? size st then st
          else sizeEffect (setSize (Z.max 2 (Z.min 256 n)) st)).
Proof.
  unfold step, handle. rewrite onSizeChange_int. simpl.
  destruct (Z.eqb_spec (Z.max 2 (Z.min 256 n)) (size st)) as [->|]; [|done].
  by destruct st.
Qed.

End Grid.






(** * Serializer: import validation and the export/import round trip *)

Section Serializer.

Implicit Types (st : State) (data : value).

(** A property read that yields a number or an array comes from an
    object, and objects are truthy. *)
Lemma get_defined_truthy data k :
  get data k ≠ VUndef → truthy data = true.
Proof. by destruct data. Qed.

Lemma onload_invalid data st :
  typeof (get data "size") ≠ "number" ∨ Array_isArray (get data "pixels") = false →
  onload (Some data) st = Some (st, Some "Invalid JSON file").
Proof.
  intros Hbad. unfold onload.
  destruct (truthy data); [|done]. simpl.
  destruct Hbad as [Hsz|Hpx].
  - apply String.eqb_neq in Hsz. by rewrite Hsz.
  - rewrite Hpx. by rewrite orb_true_r.
Qed.

(** A valid document: the three state updates of the handler. *)
Lemma importJSON_valid data st n r px :
  get data "size" = VNum n → get data "pixels" = VArr r px →
  importJSON (Some (Some data)) st
  = (λ N, (setPalette (if Array_isArray (get data "palette")
                       then elements_of (get data "palette") else palette st)
             (setPixels px (setSize N st)),
           None)) <$> to_int (clamp n (int 2) (int 256)).
Proof.
  intros Hsz Hpx. unfold importJSON, onload.
  rewrite (get_defined_truthy data "size") by (by rewrite Hsz).
  rewrite Hsz, Hpx. change (num_of (VNum n)) with n.
  generalize (clamp n (int 2) (int 256)). intros c. simpl. unfold setSizeNumber.
  destruct (to_int c); simpl; [|done].
  by destruct (Array_isArray (get data "palette")).
Qed.

(** The event of a valid document: the handler, then the effect. *)
Lemma step_import_valid data st n r px N :
  get data "size" = VNum n → get data "pixels" = VArr r px →
  to_int (clamp n (int 2) (int 256)) = Some N →
  step st (ImportJSON (Some (Some data)))
  = Some (setPalette (if Array_isArray (get data "palette")
                      then elements_of (get data "palette") else palette st)
            (setPixels (if N =? size st then px else resetPixels N (VArr 0%nat px))
               (setSize N st))).
Proof.
  intros Hsz Hpx HN. unfold step, handle.
  rewrite (importJSON_valid data st n r px Hsz Hpx), HN. simpl.
  by destruct (N =? size st).
Qed.

Lemma erase_VArr_inv (v : value) (l' : list value) :
  erase v = VArr 0%nat l' → ∃ r l, v = VArr r l ∧ map erase l = l'.
Proof. destruct v; try done. intros [= <-]. by eexists _, _. Qed.

Lemma get_erase data k : get (erase data) k = erase (get data k).
Proof.
  destruct data; try done. simpl. rewrite lookup_fmap.
  by destruct (m !! k).
Qed.

Lemma clone_elements (l : list value) :
  forallb is_json l = true →
  map (λ x, match x with VUndef => VNull | _ => JSON_clone x end) l = l.
Proof.
  intros Hl. pose proof (JSFacts.JSON_clone_id (VArr 0%nat l) Hl) as H.
  simpl in H. congruence.
Qed.

Lemma exportJSON_fields now st :
  get (exportJSON now st) "size" = VNum (int (size st))
  ∧ get (exportJSON now st) "pixels"
    = VArr 0%nat (map erase
        (map (λ x, match x with VUndef => VNull | _ => JSON_clone x end) (pixels st)))
  ∧ get (exportJSON now st) "palette"
    = VArr 0%nat (map erase
        (map (λ x, match x with VUndef => VNull | _ => JSON_clone x end) (palette st)))
  ∧ get (exportJSON now st) "version" = VNum (int 1).
Proof.
  unfold exportJSON, payload, get. simpl.
  rewrite !lookup_fmap, !lookup_omap.
  repeat split; by simplify_map_eq.
Qed.

(** The fields of a document with the contents [exportJSON] wrote. *)
Lemma parsed_fields now st data :
  erase data = exportJSON now st →
  get data "size" = VNum (int (size st))
  ∧ (∃ r px, get data "pixels" = VArr r px
       ∧ map erase px
         = map erase (map (λ x, match x with VUndef => VNull | _ => JSON_clone x end)
                          (pixels st)))
  ∧ (∃ r pal, get data "palette" = VArr r pal
       ∧ map erase pal
         = map erase (map (λ x, match x with VUndef => VNull | _ => JSON_clone x end)
                          (palette st))).
Proof.
  intros Hdata. destruct (exportJSON_fields now st) as (Hs & Hp & Hq & _).
  rewrite <-Hdata, get_erase in Hs, Hp, Hq.
  split; [by apply (JSFacts.erase_primitive_inv (VNum _))|].
  split; [by apply erase_VArr_inv in Hp|by apply erase_VArr_inv in Hq].
Qed.

(** Equal contents are equal values when one side holds primitives only. *)
Lemma map_erase_primitive (l l' : list value) :
  forallb primitive l' = true → map erase l = map erase l' → l = l'.
Proof.
  revert l. induction l' as [|y l' IH]; intros [|x l]; simpl; try done.
  intros [Hy Hl']%andb_true_iff [= Hxy Hll]. f_equal; [|by apply IH].
  rewrite (JSFacts.erase_primitive y Hy) in Hxy.
  by apply JSFacts.erase_primitive_inv.
Qed.

End Serializer.

(** C5. When the file's text does not parse, or the parsed value has no
    numeric [size] or no array-typed [pixels], [importJSON] alerts
    "Invalid JSON file" and the whole state (grid size, buffer and palette
    included) stays as it was; no effect runs afterwards. *)
Theorem import_invalid_is_atomic (parsed : option value) (st : State) :
  (∀ data, parsed = Some data →
     typeof (get data "size") ≠ "number" ∨ Array_isArray (get data "pixels") = false) →
  importJSON (Some parsed) st = Some (st, Some "Invalid JSON file")
  ∧ step st (ImportJSON (Some parsed)) = Some st.
Proof.
  intros Hbad.
  assert (importJSON (Some parsed) st = Some (st, Some "Invalid JSON file")) as Himp.
  { destruct parsed as [data|]; [|done]. by apply onload_invalid, Hbad. }
  split; [done|]. unfold step, handle. rewrite Himp. simpl. by rewrite Z.eqb_refl.
Qed.

Lemma import_invalid_is_atomic_witness :
  importJSON (Some (Some (VObj 1%nat (<["size" := VStr "16"]>
                               (<["pixels" := VArr 2%nat [VNull; VNull]]> ∅))))) initial
  = Some (initial, Some "Invalid JSON file").
Proof.
  apply import_invalid_is_atomic.
  intros data [= <-]. left. discriminate.
Defined.

(** C6, as amended.  Let the parsed value have a numeric [size] [n] and an
    array-typed [pixels] [px], and let [n] clamped into [2, 256] be an
    integer [N].  Then [importJSON] raises no alert, sets the size to [N],
    makes [px] the buffer whatever its length, replaces the palette by the
    imported one when that is an array and keeps the palette otherwise,
    and changes nothing else; after the effect that follows a change of
    size, the buffer is [px] if [N] is the size there was or [px] has
    [N * N] entries, and [N * N] empty cells otherwise. *)
Theorem import_valid_replaces (data : value) (st : State) (n : number)
    (r : ref) (px : list value) (N : Z) :
  get data "size" = VNum n → get data "pixels" = VArr r px →
  to_int (clamp n (int 2) (int 256)) = Some N →
  2 ≤ N ≤ 256
  ∧ (∀ k, n = int k → N = Z.max 2 (Z.min 256 k))
  ∧ ∃ st3 st',
      importJSON (Some (Some data)) st = Some (st3, None)
      ∧ size st3 = N
      ∧ pixels st3 = px
      ∧ (∀ r' pal, get data "palette" = VArr r' pal → palette st3 = pal)
      ∧ (Array_isArray (get data "palette") = false → palette st3 = palette st)
      ∧ st3 = setPalette (palette st3) (setPixels px (setSize N st))
      ∧ step st (ImportJSON (Some (Some data))) = Some st'
      ∧ (N = size st ∨ full_buffer N px → st' = st3)
      ∧ (N ≠ size st → ¬ full_buffer N px →
         st' = setPixels (replicate (Z.to_nat (N * N)) VNull) st3).
Proof.
  intros Hsz Hpx HN.
  split; [by apply (JSFacts.clamp_to_int n)|].
  split.
  { intros k ->. rewrite JSFacts.clamp_int, JSFacts.to_int_int in HN. congruence. }
  rewrite (step_import_valid data st n r px N Hsz Hpx HN).
  rewrite (importJSON_valid data st n r px Hsz Hpx), HN. simpl.
  eexists _, _. split; [done|]. split; [done|]. split; [done|].
  split. { intros r' pal ->. done. }
  split. { intros ->. done. }
  split; [done|]. split; [done|].
  unfold full_buffer, resetPixels. split.
  - intros [->|Hfull].
    + by rewrite Z.eqb_refl.
    + rewrite Hfull, Z.eqb_refl. by destruct (N =? size st).
  - intros Hne Hfull.
    destruct (Z.eqb_spec N (size st)); [done|].
    by destruct (Z.eqb_spec (Z.of_nat (length px)) (N * N)).
Qed.

Lemma import_valid_replaces_witness :
  let data := VObj 1%nat (<["size" := VNum (int 1000)]>
                         (<["pixels" := VArr 2%nat [VStr "#ff0000"]]> ∅)) in
  ∃ st3 st',
    importJSON (Some (Some data)) initial = Some (st3, None)
    ∧ size st3 = 256
    ∧ pixels st3 = [VStr "#ff0000"]
    ∧ palette st3 = palette initial
    ∧ step initial (ImportJSON (Some (Some data))) = Some st'
    ∧ st' = setPixels (replicate (Z.to_nat (256 * 256)) VNull) st3.
Proof.
  intros data.
  destruct (import_valid_replaces data initial (int 1000) 2%nat [VStr "#ff0000"] 256)
    as (_ & _ & st3 & st' & Hi & Hs & Hp & _ & Hpal & _ & Hst & _ & Hblank);
    [reflexivity..|].
  exists st3, st'. split; [exact Hi|]. split; [exact Hs|]. split; [exact Hp|].
  split; [apply Hpal; reflexivity|]. split; [exact Hst|].
  apply Hblank; [discriminate|]. unfold full_buffer. discriminate.
Defined.

(** C6, as stated, fails.  The document [{size: 3, pixels: ["#ff0000"]}]
    passes validation; imported in the first state (size 32), the effect
    of the size change replaces the imported buffer by 9 empty cells.
    (Imported in a state of size 3 the one-entry buffer stays.)  The
    document [{size: 2.5, pixels: []}] passes validation too; the size
    stored is 2.5, with which the next render throws: [Array(6.25)]. *)
Lemma import_discards_buffer :
  let data := VObj 1%nat (<["size" := VNum (int 3)]>
                         (<["pixels" := VArr 2%nat [VStr "#ff0000"]]> ∅)) in
  let half := VObj 1%nat (<["size" := VNum (Fin (Q2Qc (5 # 2)))]>
                         (<["pixels" := VArr 2%nat []]> ∅)) in
  (typeof (get data "size") = "number" ∧ Array_isArray (get data "pixels") = true
   ∧ ∃ st', step initial (ImportJSON (Some (Some data))) = Some st'
            ∧ size st' = 3
            ∧ pixels st' = replicate 9 VNull
            ∧ pixels st' ≠ [VStr "#ff0000"])
  ∧ (∃ st', step (setSize 3 initial) (ImportJSON (Some (Some data))) = Some st'
            ∧ size st' = 3
            ∧ pixels st' = [VStr "#ff0000"])
  ∧ (typeof (get half "size") = "number" ∧ Array_isArray (get half "pixels") = true
     ∧ clamp (Fin (Q2Qc (5 # 2))) (int 2) (int 256) = Fin (Q2Qc (5 # 2))
     ∧ step initial (ImportJSON (Some (Some half))) = None).
Proof.
  intros data half. split; [|split].
  - split; [reflexivity|]. split; [reflexivity|].
    eexists. split; [reflexivity|]. split; [reflexivity|]. split; [reflexivity|].
    discriminate.
  - eexists. split; [reflexivity|]. split; reflexivity.
  - split; [reflexivity|]. split; [reflexivity|]. split; [reflexivity|]. reflexivity.
Qed.

(** C7, as amended.  Let [st] be a state with size in [2, 256] whose
    buffer and palette hold values JSON can represent (no hole, no
    infinity), and [data] a parsed document with the contents
    [exportJSON] wrote for [st].  Importing [data] in any state raises no
    alert and sets the exported size, a buffer and a palette with the
    contents of the exported ones: the same entries where these are
    primitive values.  This is also the state after the effect keyed on
    [size], provided the import does not change the size (as in the
    exporting state itself) or the buffer has [size * size] entries. *)
Theorem export_import_round_trip (st st0 : State) (now : Z) (data : value) :
  2 ≤ size st ≤ 256 →
  forallb is_json (pixels st) = true →
  forallb is_json (palette st) = true →
  erase data = exportJSON now st →
  ∃ st3,
    importJSON (Some (Some data)) st0 = Some (st3, None)
    ∧ size st3 = size st
    ∧ map erase (pixels st3) = map erase (pixels st)
    ∧ map erase (palette st3) = map erase (palette st)
    ∧ (forallb primitive (pixels st) = true → pixels st3 = pixels st)
    ∧ (forallb primitive (palette st) = true → palette st3 = palette st)
    ∧ (size st0 = size st ∨ full_buffer (size st) (pixels st) →
       step st0 (ImportJSON (Some (Some data))) = Some st3).
Proof.
  intros Hsz Hpx Hpal Hdata.
  destruct (parsed_fields now st data Hdata)
    as (Hs & (r & px & Hp & Hpe) & (r' & pal & Hq & Hqe)).
  rewrite (clone_elements _ Hpx) in Hpe. rewrite (clone_elements _ Hpal) in Hqe.
  assert (to_int (clamp (int (size st)) (int 2) (int 256)) = Some (size st)) as HN.
  { rewrite JSFacts.clamp_int, JSFacts.to_int_int. f_equal. lia. }
  rewrite (step_import_valid data st0 _ r px _ Hs Hp HN).
  rewrite (importJSON_valid data st0 _ r px Hs Hp), HN, Hq. simpl.
  eexists. split; [done|]. simpl.
  split; [done|]. split; [done|]. split; [done|].
  split; [intros Hprim; by apply map_erase_primitive|].
  split; [intros Hprim; by apply map_erase_primitive|].
  intros Hok. do 2 f_equal.
  destruct (Z.eqb_spec (size st) (size st0)) as [Heq|Hne]; [done|].
  destruct Hok as [Heq|Hfull]; [congruence|].
  unfold full_buffer in Hfull. unfold resetPixels.
  assert (length px = length (pixels st)) as ->.
  { by rewrite <-(length_map erase px), Hpe, length_map. }
  by rewrite Hfull, Z.eqb_refl.
Qed.

Lemma export_import_round_trip_witness :
  ∃ st st3,
    run [SizeChange 4; PointerDown 1 1; PointerUp] initial = Some st
    ∧ importJSON (Some (Some (exportJSON 1700000000000 st))) initial = Some (st3, None)
    ∧ size st3 = 4
    ∧ pixels st3 = pixels st
    ∧ palette st3 = palette st
    ∧ step initial (ImportJSON (Some (Some (exportJSON 1700000000000 st)))) = Some st3.
Proof.
  eexists. 
  match goal with |- ∃ st3, run ?evs ?i = Some ?s ∧ _ =>
    assert (run evs i = Some s) as Hrun by reflexivity
  end.
  match type of Hrun with _ = Some ?s => set (st := s) in * end.
  assert (2 ≤ size st ≤ 256) as Hsz by (split; discriminate).
  destruct (export_import_round_trip st initial 1700000000000
              (exportJSON 1700000000000 st) Hsz)
    as (st3 & Hi & Hs & _ & _ & Hpix & Hpal & Hstep); [reflexivity..|].
  exists st3. split; [exact Hrun|]. split; [exact Hi|]. split; [exact Hs|].
  split; [apply Hpix; reflexivity|]. split; [apply Hpal; reflexivity|].
  apply Hstep. right. reflexivity.
Defined.

(** C7, as stated, fails, in six ways.
    - After an [undo] that follows a size change the buffer is shorter
      than [size * size]; painting past its end leaves holes, and the
      exported document holds [null] where the buffer has holes.  Here:
      size 2, one stroke, size 3, undo, a stroke on cell (2, 2).
    - A buffer entry [Infinity] (imported from [1e999]) is exported as
      [null].
    - So is an [Infinity] inside a buffer entry.
    - So is a palette entry [Infinity].
    - After size 2, one stroke, size 3 and undo, the grid has size 3 and a
      buffer of 4 entries; imported in the first state (size 32), the
      effect of the size change replaces these by 9 empty cells.
    - An array held by the buffer comes back as another array, with the
      same contents. *)
Lemma export_import_not_identical :
  (∃ st st',
     run [SizeChange 2; PointerDown 0 0; PointerUp; SizeChange 3; Undo;
          PointerDown 2 2; PointerUp] initial = Some st
     ∧ 2 ≤ size st ≤ 256
     ∧ pixels st = [VNull; VNull; VNull; VNull; VUndef; VUndef; VUndef; VUndef;
                    VStr "#1f2937"]
     ∧ step st (ImportJSON (Some (Some (exportJSON 0 st)))) = Some st'
     ∧ pixels st' = [VNull; VNull; VNull; VNull; VNull; VNull; VNull; VNull;
                     VStr "#1f2937"]
     ∧ pixels st' ≠ pixels st)
  ∧ (∃ st st',
       run [ImportJSON (Some (Some (VObj 1%nat
              (<["size" := VNum (int 2)]>
              (<["pixels" := VArr 2%nat [VNum PosInf; VNull; VNull; VNull]]> ∅)))))]
           initial = Some st
       ∧ 2 ≤ size st ≤ 256
       ∧ pixels st = [VNum PosInf; VNull; VNull; VNull]
       ∧ forallb is_json (palette st) = true
       ∧ step st (ImportJSON (Some (Some (exportJSON 0 st)))) = Some st'
       ∧ pixels st' = [VNull; VNull; VNull; VNull]
       ∧ pixels st' ≠ pixels st)
  ∧ (∃ st st',
       run [ImportJSON (Some (Some (VObj 1%nat
              (<["size" := VNum (int 2)]>
              (<["pixels" := VArr 2%nat [VArr 3%nat [VNum PosInf]; VNull; VNull;
                                        VNull]]> ∅)))))]
           initial = Some st
       ∧ 2 ≤ size st ≤ 256
       ∧ pixels st = [VArr 3%nat [VNum PosInf]; VNull; VNull; VNull]
       ∧ forallb is_json (palette st) = true
       ∧ step st (ImportJSON (Some (Some (exportJSON 0 st)))) = Some st'
       ∧ map erase (pixels st') = [VArr 0%nat [VNull]; VNull; VNull; VNull]
       ∧ map erase (pixels st') ≠ map erase (pixels st))
  ∧ (∃ st st',
       run [ImportJSON (Some (Some (VObj 1%nat
              (<["size" := VNum (int 2)]>
              (<["pixels" := VArr 2%nat [VNull; VNull; VNull; VNull]]>
              (<["palette" := VArr 3%nat [VNum PosInf]]> ∅))))))]
           initial = Some st
       ∧ 2 ≤ size st ≤ 256
       ∧ forallb is_json (pixels st) = true
       ∧ palette st = [VNum PosInf]
       ∧ step st (ImportJSON (Some (Some (exportJSON 0 st)))) = Some st'
       ∧ palette st' = [VNull]
       ∧ palette st' ≠ palette st)
  ∧ (∃ st st',
       run [SizeChange 2; PointerDown 0 0; PointerUp; SizeChange 3; Undo] initial
       = Some st
       ∧ 2 ≤ size st ≤ 256
       ∧ forallb is_json (pixels st) = true
       ∧ forallb is_json (palette st) = true
       ∧ pixels st = [VNull; VNull; VNull; VNull]
       ∧ step initial (ImportJSON (Some (Some (exportJSON 0 st)))) = Some st'
       ∧ size st' = size st
       ∧ pixels st' = replicate 9 VNull
       ∧ pixels st' ≠ pixels st)
  ∧ (∃ st st',
       run [ImportJSON (Some (Some (VObj 1%nat
              (<["size" := VNum (int 2)]>
              (<["pixels" := VArr 2%nat [VArr 7%nat []; VNull; VNull; VNull]]> ∅)))))]
           initial = Some st
       ∧ 2 ≤ size st ≤ 256
       ∧ forallb is_json (pixels st) = true
       ∧ forallb is_json (palette st) = true
       ∧ pixels st = [VArr 7%nat []; VNull; VNull; VNull]
       ∧ step st (ImportJSON (Some (Some (exportJSON 0 st)))) = Some st'
       ∧ pixels st' = [VArr 0%nat []; VNull; VNull; VNull]
       ∧ pixels st' ≠ pixels st).
Proof.
  split; [|split; [|split; [|split; [|split]]]];
    (eexists _, _; split; [vm_compute; reflexivity|];
     split; [split; discriminate|]);
    repeat (split; [vm_compute; reflexivity|]); discriminate.
Qed.

(** * Palette: "Add to palette" *)

Section Palette.

Implicit Types (s l t : list value) (x c : value).

Lemma Set_has_spec s x : Set_has s x = true ↔ x ∈ s.
Proof.
  unfold Set_has. rewrite existsb_exists. split.
  - intros (y & Hy & Heq). apply JSFacts.same_value_spec in Heq as ->.
    by apply list_elem_of_In.
  - intros Hx. exists x. split; [by apply list_elem_of_In|apply JSFacts.same_value_refl].
Qed.

Lemma Set_has_false s x : Set_has s x = false ↔ x ∉ s.
Proof. rewrite <-not_true_iff_false, Set_has_spec. done. Qed.

(** Adding the members of a list that has no member of the set and no
    duplicate appends the list. *)
Lemma foldl_Set_add_fresh s l : NoDup (s ++ l) → foldl Set_add s l = s ++ l.
Proof.
  revert s. induction l as [|x l IH]; intros s Hnd; simpl.
  - by rewrite app_nil_r.
  - assert (x ∉ s) as Hx.
    { apply NoDup_app in Hnd as (_ & Hdisj & _). intros Hin.
      apply (Hdisj x Hin). by left. }
    unfold Set_add at 2. apply Set_has_false in Hx. rewrite Hx.
    rewrite IH; rewrite <-app_assoc; done.
Qed.

(** What [foldl Set_add] appends is a subsequence of the list, free of
    duplicates and of members of the set, that covers the list. *)
Lemma foldl_Set_add_sub s l :
  NoDup s →
  ∃ t, foldl Set_add s l = s ++ t ∧ sublist t l ∧ NoDup (s ++ t)
       ∧ ∀ x, x ∈ l → x ∈ s ++ t.
Proof.
  revert s. induction l as [|x l IH]; intros s Hs; simpl.
  - exists []. rewrite app_nil_r. repeat split; [done..|]. by intros x ?%elem_of_nil.
  - unfold Set_add at 2. destruct (Set_has s x) eqn:Hx.
    + destruct (IH s Hs) as (t & Heq & Hsub & Hnd & Hcov).
      exists t. repeat split; [done|by apply sublist_cons|done|].
      intros z [->|Hz]%elem_of_cons; [|by apply Hcov].
      apply elem_of_app. left. by apply Set_has_spec.
    + apply Set_has_false in Hx.
      destruct (IH (s ++ [x])) as (t & Heq & Hsub & Hnd & Hcov).
      { apply NoDup_app. repeat split; [done| |apply NoDup_singleton].
        intros z Hz ->%list_elem_of_singleton. done. }
      exists (x :: t). rewrite <-app_assoc in Heq, Hnd. simpl in Heq, Hnd.
      repeat split; [done|by apply sublist_skip|done|].
      intros z Hz. specialize (Hcov z). rewrite <-app_assoc in Hcov. simpl in Hcov.
      apply elem_of_cons in Hz as [->|Hz]; [|by apply Hcov].
      apply elem_of_app. right. by left.
Qed.

(** On a list without duplicates, [foldl Set_add] appends the entries
    that are not in the set yet. *)
Lemma foldl_Set_add_filter s l :
  NoDup l → foldl Set_add s l = s ++ List.filter (λ v, negb (Set_has s v)) l.
Proof.
  revert s. induction l as [|x l IH]; intros s Hl; simpl.
  - by rewrite app_nil_r.
  - apply NoDup_cons in Hl as [Hx Hl].
    unfold Set_add at 2. destruct (Set_has s x) eqn:Hs; simpl; [by apply IH|].
    rewrite IH by done. rewrite <-app_assoc. simpl. do 2 f_equal.
    apply List.filter_ext_in. intros v Hv%list_elem_of_In. f_equal.
    unfold Set_has. rewrite existsb_app. simpl.
    assert (same_value v x = false) as ->; [|by rewrite !orb_false_r].
    apply JSFacts.same_value_false. by intros ->.
Qed.

Lemma Array_from_Set_cons c l : Array_from_Set (c :: l) = foldl Set_add [c] l.
Proof. done. Qed.

End Palette.

(** C8. "Add to palette" with current colour [c]: the new palette is the
    first 24 entries of [c :: t], where [t] is the old palette in its old
    order without [c] and without later duplicates.  So [c] comes first
    and occurs once, no entry occurs twice, no other entry is lost before
    the cap, the length is at most 24, and adding [c] again changes
    nothing.  Entries are duplicates when they are the same value: the
    same primitive or the same object, as [Set] has it. *)
Theorem add_to_palette_dedups (st : State) :
  ∃ t : list value,
    Array_from_Set (currentColor st :: palette st) = currentColor st :: t
    ∧ palette (addToPalette st) = take 24 (currentColor st :: t)
    ∧ palette (addToPalette st) !! 0%nat = Some (currentColor st)
    ∧ NoDup (currentColor st :: t)
    ∧ sublist t (palette st)
    ∧ (∀ x, x ∈ palette st → x = currentColor st ∨ x ∈ t)
    ∧ (NoDup (palette st) →
       t = List.filter (λ v, negb (same_value v (currentColor st))) (palette st))
    ∧ (length (palette (addToPalette st)) ≤ 24)%nat
    ∧ addToPalette (addToPalette st) = addToPalette st.
Proof.
  set (c := currentColor st). set (p := palette st).
  destruct (foldl_Set_add_sub [c] p) as (t & Heq & Hsub & Hnd & Hcov);
    [apply NoDup_singleton|].
  simpl in Heq, Hnd. exists t.
  assert (palette (addToPalette st) = c :: take 23 t) as Hpal.
  { unfold addToPalette. simpl. fold c p. by rewrite Array_from_Set_cons, Heq. }
  split; [done|]. split; [done|]. split; [by rewrite Hpal|].
  split; [done|]. split; [done|]. split.
  { intros x Hx. apply Hcov in Hx. by apply elem_of_cons in Hx. }
  split.
  { intros Hp. rewrite (foldl_Set_add_filter [c] p Hp) in Heq. simpl in Heq.
    injection Heq as <-. apply List.filter_ext. intros v.
    unfold Set_has. simpl. by rewrite orb_false_r. }
  split.
  { rewrite Hpal. simpl. rewrite length_take. lia. }
  unfold addToPalette at 1. rewrite Hpal.
  change (currentColor (addToPalette st)) with c.
  rewrite Array_from_Set_cons. simpl.
  unfold Set_add at 2. unfold Set_has. cbn [existsb foldl].
  rewrite JSFacts.same_value_refl. cbn [orb].
  rewrite foldl_Set_add_fresh.
  - simpl. rewrite take_take. simpl.
    unfold addToPalette. fold c p. rewrite Array_from_Set_cons, Heq. simpl.
    by destruct st.
  - simpl. apply NoDup_cons in Hnd as [Hc Ht].
    apply NoDup_cons. split.
    + intros Hin. apply Hc. by apply (subseteq_take 23 t).
    + by apply (sublist_NoDup _ t), sublist_take.
Qed.

(** The example of the specification: seven defaults, ["#123456"] added;
    and two arrays with the same contents, which are two entries. *)
Lemma add_to_palette_dedups_witness :
  palette (addToPalette (setCurrentColor (VStr "#123456") initial))
  = VStr "#123456" :: palette initial
  ∧ length (palette (addToPalette (addToPalette
              (setCurrentColor (VStr "#123456") initial)))) = 8%nat
  ∧ palette (addToPalette
               (setPalette [VArr 1%nat [VNum (int 1)]; VArr 2%nat [VNum (int 1)]]
                  (setCurrentColor (VStr "#123456") initial)))
    = [VStr "#123456"; VArr 1%nat [VNum (int 1)]; VArr 2%nat [VNum (int 1)]].
Proof.
  destruct (add_to_palette_dedups (setCurrentColor (VStr "#123456") initial))
    as (t & _ & Hpal & _ & _ & _ & _ & Hfilter & _ & Hidem).
  destruct (add_to_palette_dedups
              (setPalette [VArr 1%nat [VNum (int 1)]; VArr 2%nat [VNum (int 1)]]
                 (setCurrentColor (VStr "#123456") initial)))
    as (t' & _ & Hpal' & _ & _ & _ & _ & Hfilter' & _).
  assert (t = palette initial) as Ht.
  { rewrite Hfilter; [reflexivity|].
    repeat (apply NoDup_cons; split;
            [rewrite ?elem_of_cons, elem_of_nil; intros H;
             repeat (destruct H as [H|H]; [discriminate|]); exact H|]).
    apply NoDup_nil. done. }
  assert (t' = [VArr 1%nat [VNum (int 1)]; VArr 2%nat [VNum (int 1)]]) as Ht'.
  { rewrite Hfilter'; [reflexivity|].
    repeat (apply NoDup_cons; split;
            [rewrite ?elem_of_cons, elem_of_nil; intros H;
             repeat (destruct H as [H|H]; [discriminate|]); exact H|]).
    apply NoDup_nil. done. }
  rewrite Hidem, Hpal, Ht, Hpal', Ht'. split; [reflexivity|]. split; reflexivity.
Defined.

(** * Raster exporter: the grid overlay *)

Section Overlay.

Lemma Forall_flat_map {A B} (P : B → Prop) (f : A → list B) (l : list A) :
  (∀ x, Forall P (f x)) → Forall P (flat_map f l).
Proof.
  intros Hf. induction l as [|x l IH]; simpl; [constructor|].
  apply Forall_app. by split.
Qed.

Lemma strokes_from_fills ctx (fills rest : list canvas_call) :
  Forall fills_only fills →
  strokes_from ctx (fills ++ rest) = strokes_from ctx rest.
Proof.
  induction 1 as [|c fills Hc _ IH]; [done|].
  simpl. by destruct c.
Qed.

Lemma paint_cell_fills st y x : Forall fills_only (paint_cell st y x).
Proof. unfold paint_cell. case_match; repeat constructor. Qed.

Lemma paint_loop_fills st (ys xs : list Z) :
  Forall fills_only (flat_map (λ y, flat_map (paint_cell st y) xs) ys).
Proof.
  apply Forall_flat_map. intros y. apply Forall_flat_map. intros x.
  apply paint_cell_fills.
Qed.

(** One round of the overlay loop strokes two segments and leaves the
    line width and the stroke style as they were. *)
Lemma strokes_from_grid_lines ctx sz (ks : list Z) :
  strokes_from ctx (flat_map (grid_lines sz) ks)
  = flat_map (λ i, [mkStroked (i, 0) (i, sz) (lineWidth ctx) (strokeStyle ctx);
                    mkStroked (0, i) (sz, i) (lineWidth ctx) (strokeStyle ctx)]) ks.
Proof.
  revert ctx. induction ks as [|i ks IH]; intros ctx; [done|].
  simpl. by rewrite IH.
Qed.

End Overlay.

(** C9, as amended.  With the grid requested, [exportPNG] strokes, on the
    [size] x [size] canvas and before the upscaling, one vertical and one
    horizontal line at every integer boundary [0 .. size] ([size + 1] of
    each), all with stroke style ["#e5e7eb"] and line width [0.02];
    without the grid it strokes nothing. *)
Theorem grid_overlay_lines (st : State) :
  0 ≤ size st →
  strokes (canvas_calls (exportPNG true st))
  = flat_map (λ i, [mkStroked (i, 0) (i, size st) 0.02%Q "#e5e7eb";
                    mkStroked (0, i) (size st, i) 0.02%Q "#e5e7eb"])
             (seqZ 0 (size st + 1))
  ∧ Z.of_nat (length (strokes (canvas_calls (exportPNG true st)))) = 2 * (size st + 1)
  ∧ (∀ i, 0 ≤ i ≤ size st →
       mkStroked (i, 0) (i, size st) 0.02%Q "#e5e7eb"
         ∈ strokes (canvas_calls (exportPNG true st))
       ∧ mkStroked (0, i) (size st, i) 0.02%Q "#e5e7eb"
         ∈ strokes (canvas_calls (exportPNG true st)))
  ∧ Forall (λ s, seg_width s = 0.02%Q ∧ seg_style s = "#e5e7eb")
           (strokes (canvas_calls (exportPNG true st)))
  ∧ strokes (canvas_calls (exportPNG false st)) = []
  ∧ canvas_width (exportPNG true st) = size st
  ∧ canvas_height (exportPNG true st) = size st
  ∧ out_width (exportPNG true st) = size st * Z.max 1 (512 / size st).
Proof.
  intros Hsz.
  assert (strokes (canvas_calls (exportPNG true st))
          = flat_map (λ i, [mkStroked (i, 0) (i, size st) 0.02%Q "#e5e7eb";
                            mkStroked (0, i) (size st, i) 0.02%Q "#e5e7eb"])
                     (seqZ 0 (size st + 1))) as Heq.
  { unfold strokes, exportPNG. simpl.
    rewrite strokes_from_fills by apply paint_loop_fills.
    unfold grid_overlay. simpl. by rewrite strokes_from_grid_lines. }
  split; [done|]. rewrite Heq. split.
  { rewrite flat_map_constant_length with (c := 2%nat) by done.
    rewrite length_seqZ. lia. }
  split.
  { intros i Hi. assert (i ∈ seqZ 0 (size st + 1)) as Hin by (apply elem_of_seqZ; lia).
    split; apply list_elem_of_In, in_flat_map; exists i;
      (split; [by apply list_elem_of_In|]); simpl; auto. }
  split.
  { apply Forall_flat_map. intros i. by repeat constructor. }
  split; [|done].
  unfold strokes, exportPNG. simpl.
  rewrite strokes_from_fills by apply paint_loop_fills. done.
Qed.

Lemma grid_overlay_lines_witness :
  Z.of_nat (length (strokes (canvas_calls (exportPNG true initial)))) = 66
  ∧ mkStroked (32, 0) (32, 32) 0.02%Q "#e5e7eb"
      ∈ strokes (canvas_calls (exportPNG true initial)).
Proof.
  assert (0 ≤ size initial) as H0 by discriminate.
  destruct (grid_overlay_lines initial H0) as (_ & Hlen & Hin & _).
  split; [exact Hlen|]. apply (Hin 32). split; discriminate.
Defined.

(** C9, as stated, fails: the lines of the overlay are not 1 unit wide.
    On a 2 x 2 grid the six lines are stroked with line width 0.02. *)
Lemma grid_lines_not_one_unit_wide :
  ∃ st, run [SizeChange 2] initial = Some st
  ∧ let png := exportPNG true st in
    length (strokes (canvas_calls png)) = 6%nat
    ∧ Forall (λ s, (seg_width s == 0.02)%Q ∧ ¬ (seg_width s == 1)%Q)
             (strokes (canvas_calls png)).
Proof.
  eexists. split; [vm_compute; reflexivity|].
  split; [reflexivity|].
  vm_compute strokes. repeat constructor; done.
Qed.

(** * Further properties of the component *)

Section MoreGrid.

Implicit Types (st : State) (l : list value).

Lemma idx_inj st x y x' y' :
  in_grid st x y → in_grid st x' y' → idx st x y = idx st x' y' → x = x' ∧ y = y'.
Proof.
  unfold in_grid, idx. intros [Hx Hy] [Hx' Hy'] Heq.
  assert (y = y') as ->.
  { destruct (Z.lt_trichotomy y y') as [Hlt|[Heq'|Hgt]]; [|done|].
    - assert ((y + 1) * size st ≤ y' * size st) by (apply Z.mul_le_mono_nonneg_r; lia). lia.
    - assert ((y' + 1) * size st ≤ y * size st) by (apply Z.mul_le_mono_nonneg_r; lia). lia. }
  split; [lia|done].
Qed.

(** The buffer after [handlePaint], whatever the test decides. *)
Lemma handlePaint_pixels x y c st :
  0 ≤ idx st x y < Z.of_nat (length (pixels st)) →
  pixels (handlePaint x y c st) = <[Z.to_nat (idx st x y) := c]> (pixels st).
Proof.
  intros Hi. unfold handlePaint. simpl.
  destruct (strict_eq _ c) eqn:Heq.
  - apply JSFacts.strict_eq_sound in Heq. symmetry. apply list_insert_id.
    by rewrite arr_get_in_range, Heq.
  - by apply arr_set_in_range.
Qed.

(** [handlePaint] on a cell of a buffer that fits the grid. *)
Lemma handlePaint_full st x y c :
  in_grid st x y → full_buffer (size st) (pixels st) →
  full_buffer (size st) (pixels (handlePaint x y c st)).
Proof.
  intros [Hx Hy] Hfull.
  rewrite (handlePaint_pixels x y c st (idx_in_range st x y Hx Hy Hfull)).
  unfold full_buffer. by rewrite length_insert.
Qed.

Lemma handlePaint_reads st x y c :
  in_grid st x y → full_buffer (size st) (pixels st) →
  arr_get (pixels (handlePaint x y c st)) (idx st x y) = c.
Proof.
  intros [Hx Hy] Hfull. pose proof (idx_in_range st x y Hx Hy Hfull) as Hi.
  rewrite (handlePaint_pixels x y c st Hi).
  unfold arr_get. destruct (Z.leb_spec 0 (idx st x y)); [|lia].
  by rewrite list_lookup_insert_eq by lia.
Qed.

Lemma handlePaint_others st x y c x' y' :
  in_grid st x y → full_buffer (size st) (pixels st) →
  in_grid st x' y' → (x', y') ≠ (x, y) →
  arr_get (pixels (handlePaint x y c st)) (idx st x' y')
  = arr_get (pixels st) (idx st x' y').
Proof.
  intros [Hx Hy] Hfull [Hx' Hy'] Hne.
  pose proof (idx_in_range st x y Hx Hy Hfull) as Hi.
  pose proof (idx_in_range st x' y' Hx' Hy' Hfull) as Hi'.
  rewrite (handlePaint_pixels x y c st Hi).
  apply arr_get_insert_ne; [lia..|].
  intros Heq. apply Hne.
  destruct (idx_inj st x' y' x y) as [-> ->]; done.
Qed.

End MoreGrid.

(** X1. [clamp(n, min, max)] is [Math.max(min, Math.min(max, n))].  For
    numbers with [min <= max] it lies in [[min, max]], is [n] exactly when
    [n] lies there, is the nearer bound otherwise, and clamping twice is
    clamping once; with [min > max] it is [min]; on integers it is the
    integer clamp.  It is [NaN] as soon as an argument is [NaN]: this is
    what the grid-size input passes on when [parseInt] finds no digits. *)
Theorem clamp_contract (n lo hi : number) :
  (n ≠ NaN → lo ≠ NaN → hi ≠ NaN → num_leb lo hi = true →
     num_leb lo (clamp n lo hi) = true ∧ num_leb (clamp n lo hi) hi = true
     ∧ (clamp n lo hi = n ↔ num_leb lo n = true ∧ num_leb n hi = true)
     ∧ (num_leb lo n = false → clamp n lo hi = lo)
     ∧ (num_leb n hi = false → clamp n lo hi = hi)
     ∧ clamp (clamp n lo hi) lo hi = clamp n lo hi)
  ∧ (n ≠ NaN → lo ≠ NaN → hi ≠ NaN → num_leb lo hi = false → clamp n lo hi = lo)
  ∧ (n = NaN ∨ lo = NaN ∨ hi = NaN → clamp n lo hi = NaN)
  ∧ (∀ a l h, n = int a → lo = int l → hi = int h →
       clamp n lo hi = int (Z.max l (Z.min h a))).
Proof.
  split; [|split; [|split]].
  - intros Hn Hlo Hhi Hle.
    destruct (JSFacts.clamp_bounds n lo hi Hn Hlo Hhi Hle) as (H1 & H2 & H3).
    split; [done|]. split; [done|]. split; [done|].
    split; [|split].
    + intros Hln. unfold clamp. rewrite (JSFacts.Math_min_leb hi n) by done.
      destruct (num_leb hi n) eqn:Hhn.
      * by rewrite (JSFacts.num_leb_trans lo hi n) in Hln.
      * rewrite (JSFacts.Math_max_leb lo n) by done. by rewrite Hln.
    + intros Hnh. unfold clamp. rewrite (JSFacts.Math_min_leb hi n) by done.
      rewrite (JSFacts.num_leb_total n hi) by done.
      rewrite (JSFacts.Math_max_leb lo hi) by done. by rewrite Hle.
    + assert (clamp n lo hi ≠ NaN) as Hc.
      { intros Hc. rewrite Hc in H2. done. }
      by apply (JSFacts.clamp_bounds (clamp n lo hi) lo hi Hc Hlo Hhi Hle).
  - intros Hn Hlo Hhi Hle. unfold clamp.
    rewrite (JSFacts.Math_min_leb hi n) by done.
    pose proof (JSFacts.num_leb_total lo hi Hlo Hhi Hle) as Hhl.
    destruct (num_leb hi n) eqn:Hhn.
    + rewrite (JSFacts.Math_max_leb lo hi) by done. by rewrite Hle.
    + rewrite (JSFacts.Math_max_leb lo n) by done.
      destruct (num_leb lo n) eqn:Hln; [|done].
      pose proof (JSFacts.num_leb_total hi n Hhi Hn Hhn) as Hnh.
      by rewrite (JSFacts.num_leb_trans lo n hi) in Hle.
  - unfold clamp, Math_max, Math_min.
    intros [->| [->| ->]]; [by destruct hi, lo|done|by destruct lo].
  - intros a l h -> -> ->. apply JSFacts.clamp_int.
Qed.

Lemma clamp_contract_witness :
  clamp (int 0) (int 2) (int 256) = int 2
  ∧ clamp (int 1000) (int 2) (int 256) = int 256
  ∧ clamp (int 7) (int 5) (int 3) = int 5
  ∧ clamp PosInf (int 2) (int 256) = int 256
  ∧ clamp (clamp (Fin (Q2Qc (5 # 2))) (int 2) (int 256)) (int 2) (int 256)
    = Fin (Q2Qc (5 # 2))
  ∧ clamp NaN (int 2) (int 256) = NaN.
Proof.
  destruct (clamp_contract (int 0) (int 2) (int 256))
    as ((_ & _ & _ & Hlo & _) & _); [discriminate..|reflexivity|].
  destruct (clamp_contract (int 1000) (int 2) (int 256))
    as ((_ & _ & _ & _ & Hhi & _) & _); [discriminate..|reflexivity|].
  destruct (clamp_contract (int 7) (int 5) (int 3)) as (_ & Hinv & _).
  destruct (clamp_contract PosInf (int 2) (int 256))
    as ((_ & _ & _ & _ & Hinf & _) & _); [discriminate..|reflexivity|].
  destruct (clamp_contract (Fin (Q2Qc (5 # 2))) (int 2) (int 256))
    as ((_ & _ & Hid & _ & _ & Hidem) & _); [discriminate..|reflexivity|].
  destruct (clamp_contract NaN (int 2) (int 256)) as (_ & _ & Hnan & _).
  split; [apply Hlo; reflexivity|].
  split; [apply Hhi; reflexivity|].
  split; [apply Hinv; [discriminate..|reflexivity]|].
  split; [apply Hinf; reflexivity|].
  split; [rewrite Hidem; apply Hid; split; reflexivity|].
  apply Hnan. left. reflexivity.
Defined.

(** X2. [idx] numbers the cells of the grid row by row: it maps the cells
    one-to-one onto the indices [0 .. size * size - 1]; the cell of index
    [i] is [(i mod size, i / size)]. *)
Theorem idx_bijective (st : State) :
  0 < size st →
  (∀ x y, in_grid st x y → 0 ≤ idx st x y < size st * size st)
  ∧ (∀ x y x' y', in_grid st x y → in_grid st x' y' →
       idx st x y = idx st x' y' → x = x' ∧ y = y')
  ∧ (∀ i, 0 ≤ i < size st * size st →
       in_grid st (i `mod` size st) (i `div` size st)
       ∧ idx st (i `mod` size st) (i `div` size st) = i).
Proof.
  intros Hsz. split; [|split].
  - unfold in_grid, idx. intros x y [Hx Hy]. nia.
  - apply idx_inj.
  - intros i Hi. unfold in_grid, idx.
    pose proof (Z.mod_pos_bound i (size st) Hsz).
    pose proof (Z.div_mod i (size st)).
    assert (0 ≤ i `div` size st) by (apply Z.div_pos; lia).
    assert (i `div` size st < size st) by (apply Z.div_lt_upper_bound; lia).
    split; [split; lia|lia].
Qed.

Lemma idx_bijective_witness :
  idx initial 31 31 = 1023 ∧ in_grid initial (70 `mod` 32) (70 `div` 32).
Proof.
  assert (0 < size initial) as H0 by reflexivity.
  destruct (idx_bijective initial H0) as (_ & _ & Hsurj).
  destruct (Hsurj 1023) as [_ H]; [split; [discriminate|reflexivity]|].
  destruct (Hsurj 70) as [H70 _]; [split; [discriminate|reflexivity]|].
  split; [exact H|exact H70].
Defined.

(** X3. On a buffer that fits the grid, [handlePaint] on a cell leaves a
    buffer that fits the grid, in which that cell reads the painted value
    and every other cell reads what it read before. *)
Theorem handlePaint_cells (st : State) (x y : Z) (c : value) :
  in_grid st x y → full_buffer (size st) (pixels st) →
  full_buffer (size st) (pixels (handlePaint x y c st))
  ∧ arr_get (pixels (handlePaint x y c st)) (idx st x y) = c
  ∧ (∀ x' y', in_grid st x' y' → (x', y') ≠ (x, y) →
       arr_get (pixels (handlePaint x y c st)) (idx st x' y')
       = arr_get (pixels st) (idx st x' y')).
Proof.
  intros Hin Hfull. split; [|split].
  - by apply handlePaint_full.
  - by apply handlePaint_reads.
  - intros x' y' Hin' Hne. by apply handlePaint_others.
Qed.

Lemma handlePaint_cells_witness :
  arr_get (pixels (handlePaint 3 4 (VStr "#ef4444") initial)) (idx initial 3 4)
  = VStr "#ef4444"
  ∧ arr_get (pixels (handlePaint 3 4 (VStr "#ef4444") initial)) (idx initial 4 3)
    = arr_get (pixels initial) (idx initial 4 3).
Proof.
  assert (in_grid initial 3 4) as H34 by (repeat split; discriminate || reflexivity).
  assert (in_grid initial 4 3) as H43 by (repeat split; discriminate || reflexivity).
  destruct (handlePaint_cells initial 3 4 (VStr "#ef4444") H34) as (_ & Hc & Hother);
    [reflexivity|].
  split; [exact Hc|]. apply Hother; [exact H43|discriminate].
Defined.

(** X4. Painting past the end of the buffer (which a buffer shorter than
    [size * size] allows) grows the buffer to [idx + 1] entries: the old
    entries stay, the skipped positions are holes, the last entry is the
    painted value. *)
Theorem handlePaint_past_end (st : State) (x y : Z) (c : value) :
  Z.of_nat (length (pixels st)) ≤ idx st x y → c ≠ VUndef →
  pixels (handlePaint x y c st)
  = pixels st
    ++ replicate (Z.to_nat (idx st x y) - length (pixels st)) VUndef ++ [c]
  ∧ Z.of_nat (length (pixels (handlePaint x y c st))) = idx st x y + 1.
Proof.
  intros Hi Hc.
  assert (pixels (handlePaint x y c st)
          = pixels st
            ++ replicate (Z.to_nat (idx st x y) - length (pixels st)) VUndef ++ [c])
    as Heq.
  { unfold handlePaint. simpl. rewrite arr_get_out_of_range by done.
    assert (strict_eq VUndef c = false) as -> by (by destruct c).
    unfold arr_set.
    destruct (Z.ltb_spec (idx st x y) 0); [lia|].
    destruct (Z.ltb_spec (idx st x y) (Z.of_nat (length (pixels st)))); [lia|done]. }
  split; [done|]. rewrite Heq, !length_app, length_replicate. simpl. lia.
Qed.

Lemma handlePaint_past_end_witness :
  ∃ st, run [SizeChange 2; PointerDown 0 0; PointerUp; SizeChange 3; Undo] initial
        = Some st
  ∧ pixels (handlePaint 2 2 (VStr "#1f2937") st)
    = [VNull; VNull; VNull; VNull; VUndef; VUndef; VUndef; VUndef; VStr "#1f2937"].
Proof.
  eexists. split; [vm_compute; reflexivity|].
  match goal with |- pixels (handlePaint _ _ _ ?s) = _ =>
    destruct (handlePaint_past_end s 2 2 (VStr "#1f2937")) as [Heq _];
      [discriminate|discriminate|exact Heq]
  end.
Defined.



Section MoreGestures.

Implicit Types (st : State) (l : list value).

Lemma arr_get_replicate n v i :
  0 ≤ i < n → arr_get (replicate (Z.to_nat n) v) i = v.
Proof.
  intros Hi. unfold arr_get. destruct (Z.leb_spec 0 i); [|lia].
  by rewrite lookup_replicate_2 by lia.
Qed.

Lemma in_grid_idx st x y :
  in_grid st x y → 0 ≤ idx st x y < size st * size st.
Proof. unfold in_grid, idx. intros [Hx Hy]. nia. Qed.

(** While the pen (or the eraser) is down, entering a cell paints it. *)
Lemma onPointerEnter_paints st x y c :
  drawing st = true →
  (tool st = "pen" ∧ c = currentColor st) ∨ (tool st = "eraser" ∧ c = VNull) →
  onPointerEnter x y st = handlePaint x y c st.
Proof.
  intros Hd Ht. unfold onPointerEnter. rewrite Hd. simpl.
  by destruct Ht as [[-> ->]|[-> ->]].
Qed.

(** A drag with the pen or the eraser over cells of the grid: the entered
    cells read the painted value, the others read what they read before. *)
Lemma drag_paints (moves : list (Z * Z)) st c :
  drawing st = true →
  (tool st = "pen" ∧ c = currentColor st) ∨ (tool st = "eraser" ∧ c = VNull) →
  full_buffer (size st) (pixels st) →
  Forall (λ p, in_grid st p.1 p.2) moves →
  ∃ px, foldl (λ s p, onPointerEnter p.1 p.2 s) st moves = setPixels px st
        ∧ full_buffer (size st) px
        ∧ (∀ p, p ∈ moves → arr_get px (idx st p.1 p.2) = c)
        ∧ (∀ a b, in_grid st a b → (a, b) ∉ moves →
             arr_get px (idx st a b) = arr_get (pixels st) (idx st a b)).
Proof.
  intros Hd Ht Hfull Hmoves. revert st Hd Ht Hfull Hmoves.
  induction moves as [|[x y] moves IH]; intros st Hd Ht Hfull Hmoves.
  - exists (pixels st). split; [by destruct st|]. split; [done|].
    split; [by intros p ?%elem_of_nil|done].
  - apply Forall_cons in Hmoves as [Hxy Hmoves]. simpl in Hxy.
    simpl. rewrite (onPointerEnter_paints st x y c Hd Ht).
    set (st1 := setPixels (pixels (handlePaint x y c st)) st).
    pose proof (handlePaint_full st x y c Hxy Hfull) as Hfull1.
    pose proof (handlePaint_reads st x y c Hxy Hfull) as Hc1.
    pose proof (λ a b, handlePaint_others st x y c a b Hxy Hfull) as Hother1.
    destruct (IH st1) as (px & Hrun & Hfullpx & Hin & Hout); [done..|].
    exists px. rewrite handlePaint_frame. fold st1. rewrite Hrun.
    split; [done|]. split; [done|]. split.
    + intros p [->|Hp]%elem_of_cons; [|by apply Hin].
      destruct (decide ((x, y) ∈ moves)) as [Hmem|Hmem]; [by apply (Hin (x, y))|].
      change (idx st (x, y).1 (x, y).2) with (idx st1 x y).
      rewrite (Hout x y Hxy Hmem). exact Hc1.
    + intros a b Hab Hnot. apply not_elem_of_cons in Hnot as [Hne Hnot].
      change (idx st a b) with (idx st1 a b).
      rewrite (Hout a b Hab Hnot). by apply Hother1.
Qed.

End MoreGestures.

(** X5. A pointer-down with the eyedropper sets the current colour to the
    value of the cell, or to white when the cell is empty or missing, so
    never to [null] or [undefined]; it switches the tool to the pen and
    leaves the buffer as it is.  The rest of that gesture therefore paints:
    every cell the pointer enters is painted with the picked colour. *)
Theorem eyedropper_picks (st : State) (x y : Z) :
  tool st = "eyedropper" →
  currentColor (onPointerDown x y st)
  = nullish (arr_get (pixels st) (idx st x y)) (VStr "#ffffff")
  ∧ currentColor (onPointerDown x y st) ≠ VNull
  ∧ currentColor (onPointerDown x y st) ≠ VUndef
  ∧ tool (onPointerDown x y st) = "pen"
  ∧ pixels (onPointerDown x y st) = pixels st
  ∧ palette (onPointerDown x y st) = palette st
  ∧ (∀ x' y', onPointerEnter x' y' (onPointerDown x y st)
              = handlePaint x' y' (currentColor (onPointerDown x y st))
                  (onPointerDown x y st)).
Proof.
  intros Ht. unfold onPointerDown. rewrite Ht. simpl.
  repeat split; try done.
  - by destruct (arr_get (pixels st) (idx st x y)).
  - by destruct (arr_get (pixels st) (idx st x y)).
Qed.

Lemma eyedropper_picks_witness :
  currentColor (onPointerDown 5 5 (setTool "eyedropper" initial)) = VStr "#ffffff"
  ∧ tool (onPointerDown 5 5 (setTool "eyedropper" initial)) = "pen".
Proof.
  destruct (eyedropper_picks (setTool "eyedropper" initial) 5 5)
    as (Hc & _ & _ & Ht & _); [reflexivity|].
  split; [exact Hc|exact Ht].
Defined.

(** X6. Entering a cell does nothing while no gesture is in progress: the
    state is returned as it is when [drawingRef.current] is false, so after
    a pointer-up no sequence of pointer-enters changes anything.  It also
    does nothing with a tool other than the pen and the eraser. *)
Theorem pointer_enter_inert (st : State) :
  (∀ x y, drawing st = false → onPointerEnter x y st = st)
  ∧ (∀ moves : list (Z * Z),
       run (map (λ p, PointerEnter p.1 p.2) moves) (onPointerUp st)
       = Some (onPointerUp st))
  ∧ (∀ x y, tool st ≠ "pen" → tool st ≠ "eraser" → onPointerEnter x y st = st).
Proof.
  split; [|split].
  - intros x y Hd. unfold onPointerEnter. by rewrite Hd.
  - intros moves. rewrite run_moves. f_equal.
    induction moves as [|[x y] moves IH]; [done|]. simpl. exact IH.
  - intros x y Hpen Her. unfold onPointerEnter.
    apply String.eqb_neq in Hpen, Her. rewrite Hpen, Her. by destruct (drawing st).
Qed.

Lemma pointer_enter_inert_witness :
  onPointerEnter 1 1 initial = initial
  ∧ onPointerEnter 1 1 (setDrawing true (setTool "eyedropper" initial))
    = setDrawing true (setTool "eyedropper" initial).
Proof.
  destruct (pointer_enter_inert initial) as (Hidle & _ & _).
  destruct (pointer_enter_inert (setDrawing true (setTool "eyedropper" initial)))
    as (_ & _ & Htool).
  split; [apply Hidle; reflexivity|apply Htool; discriminate].
Defined.

(** X7. A gesture with the pen (or the eraser) over cells of a grid whose
    buffer fits: afterwards the buffer still fits, every cell the gesture
    visited reads the current colour (or [null]), and every other cell
    reads what it read before. *)
Theorem gesture_paints_visited (st : State) (x y : Z) (moves : list (Z * Z)) (c : value) :
  (tool st = "pen" ∧ c = currentColor st) ∨ (tool st = "eraser" ∧ c = VNull) →
  full_buffer (size st) (pixels st) →
  in_grid st x y → Forall (λ p, in_grid st p.1 p.2) moves →
  full_buffer (size st) (pixels (perform (Gesture x y moves) st))
  ∧ (∀ p, p ∈ (x, y) :: moves →
       arr_get (pixels (perform (Gesture x y moves) st)) (idx st p.1 p.2) = c)
  ∧ (∀ a b, in_grid st a b → (a, b) ∉ (x, y) :: moves →
       arr_get (pixels (perform (Gesture x y moves) st)) (idx st a b)
       = arr_get (pixels st) (idx st a b)).
Proof.
  intros Ht Hfull Hxy Hmoves.
  pose proof (handlePaint_full st x y c Hxy Hfull) as Hfull1.
  pose proof (handlePaint_reads st x y c Hxy Hfull) as Hc1.
  pose proof (λ a b, handlePaint_others st x y c a b Hxy Hfull) as Hother1.
  set (s1 := onPointerDown x y st).
  assert (pixels s1 = pixels (handlePaint x y c st) ∧ size s1 = size st
          ∧ drawing s1 = true ∧ tool s1 = tool st ∧ currentColor s1 = currentColor st)
    as (Hp1 & Hs1 & Hd1 & Ht1 & Hc1').
  { unfold s1, onPointerDown.
    destruct Ht as [[Htool ->]|[Htool ->]]; rewrite Htool; simpl; by rewrite ?Htool. }
  destruct (drag_paints moves s1 c) as (px & Hrun & Hfullpx & Hin & Hout).
  { done. }
  { by rewrite Ht1, Hc1'. }
  { by rewrite Hs1, Hp1. }
  { eapply Forall_impl; [exact Hmoves|]. unfold in_grid. by rewrite Hs1. }
  assert (pixels (perform (Gesture x y moves) st) = px) as ->.
  { unfold perform. fold s1. by rewrite Hrun. }
  assert (∀ a b, idx s1 a b = idx st a b) as Hidx by (intros; unfold idx; by rewrite Hs1).
  rewrite Hs1 in Hfullpx. split; [done|]. split.
  - intros p Hp. rewrite <-Hidx.
    destruct (decide (p ∈ moves)) as [Hmem|Hmem]; [by apply Hin|].
    apply elem_of_cons in Hp as [->|Hp]; [|done]. simpl.
    rewrite (Hout x y); [by rewrite Hp1, Hidx| |done].
    unfold in_grid. by rewrite Hs1.
  - intros a b Hab Hnot. apply not_elem_of_cons in Hnot as [Hne Hnot].
    rewrite <-Hidx. rewrite (Hout a b); [|unfold in_grid; by rewrite Hs1|done].
    rewrite Hp1, Hidx. by apply Hother1.
Qed.

Lemma gesture_paints_visited_witness :
  let st' := perform (Gesture 1 1 [(2, 1); (3, 1)]) initial in
  arr_get (pixels st') (idx initial 3 1) = VStr "#1f2937"
  ∧ arr_get (pixels st') (idx initial 4 1) = VNull.
Proof.
  intros st'.
  assert (∀ a b, (0 <=? a) && (a <? 32) && (0 <=? b) && (b <? 32) = true →
                 in_grid initial a b) as Hgrid.
  { intros a b H. unfold in_grid. change (size initial) with 32. lia. }
  destruct (gesture_paints_visited initial 1 1 [(2, 1); (3, 1)] (VStr "#1f2937"))
    as (_ & Hin & Hout).
  { left. split; reflexivity. }
  { reflexivity. }
  { apply Hgrid. reflexivity. }
  { repeat (apply Forall_cons; split; [apply Hgrid; reflexivity|]). apply Forall_nil_2. }
  subst st'. split.
  - apply (Hin (3, 1)). right. right. left.
  - rewrite (Hout 4 1); [reflexivity|apply Hgrid; reflexivity|].
    rewrite !elem_of_cons, elem_of_nil.
    intros [H|[H|[H|H]]]; try discriminate H. exact H.
Defined.

(** X8. "Clear" and "Fill canvas" replace the buffer, whatever it was and
    whatever its length, by [size * size] entries that all are [null],
    respectively the current colour: afterwards the buffer fits the grid
    and every cell reads that value. *)
Theorem clear_fill_buffers (st : State) :
  pixels (clearAll st) = replicate (Z.to_nat (size st * size st)) VNull
  ∧ pixels (fillBackground st)
    = replicate (Z.to_nat (size st * size st)) (currentColor st)
  ∧ full_buffer (size st) (pixels (clearAll st))
  ∧ full_buffer (size st) (pixels (fillBackground st))
  ∧ (∀ x y, in_grid st x y →
       arr_get (pixels (clearAll st)) (idx st x y) = VNull
       ∧ arr_get (pixels (fillBackground st)) (idx st x y) = currentColor st).
Proof.
  assert (0 ≤ size st * size st) by nia.
  split; [done|]. split; [done|].
  split; [by apply length_Array_fill|]. split; [by apply length_Array_fill|].
  intros x y Hxy%in_grid_idx. simpl. unfold Array_fill.
  by rewrite !arr_get_replicate.
Qed.

Lemma clear_fill_buffers_witness :
  arr_get (pixels (fillBackground initial)) (idx initial 31 0) = VStr "#1f2937".
Proof.
  destruct (clear_fill_buffers initial) as (_ & _ & _ & _ & Hcells).
  apply (Hcells 31 0). repeat split; discriminate || reflexivity.
Defined.

Section MoreHistory.

Implicit Types (st : State).

Lemma undo_snoc st u prev :
  undoStack st = u ++ [prev] →
  undo st = setUndoStack u (setPixels prev (setRedoStack (redoStack st ++ [pixels st]) st)).
Proof.
  intros Hu. destruct (last_take_snoc u prev) as [Hl Ht].
  rewrite (undo_top st prev) by (by rewrite Hu). by rewrite Hu, Ht.
Qed.

Lemma redo_snoc st r next :
  redoStack st = r ++ [next] →
  redo st = setRedoStack r (setPixels next (setUndoStack (undoStack st ++ [pixels st]) st)).
Proof.
  intros Hr. destruct (last_take_snoc r next) as [Hl Ht].
  rewrite (redo_top st next) by (by rewrite Hr). by rewrite Hr, Ht.
Qed.

Lemma nonempty_snoc {A} (l : list A) : l ≠ [] → ∃ l' x, l = l' ++ [x].
Proof.
  intros Hl. destruct l as [|y l] using rev_ind; [done|]. by exists l, y.
Qed.

Lemma undo_empty st : undoStack st = [] → undo st = st.
Proof. unfold undo. by intros ->. Qed.

Lemma redo_empty st : redoStack st = [] → redo st = st.
Proof. unfold redo. by intros ->. Qed.

Lemma redo_undo st : undoStack st ≠ [] → redo (undo st) = st.
Proof.
  intros (u & prev & Hu)%nonempty_snoc.
  rewrite (undo_snoc st u prev Hu).
  erewrite redo_snoc by reflexivity. simpl. rewrite <-Hu. by destruct st.
Qed.

Lemma undo_redo st : redoStack st ≠ [] → undo (redo st) = st.
Proof.
  intros (r & next & Hr)%nonempty_snoc.
  rewrite (redo_snoc st r next Hr).
  erewrite undo_snoc by reflexivity. simpl. rewrite <-Hr. by destruct st.
Qed.

(** [undo] looks at the buffer and at the undo stack only. *)
Lemma undo_history_cong (a b : State) :
  pixels a = pixels b → undoStack a = undoStack b →
  pixels (undo a) = pixels (undo b) ∧ undoStack (undo a) = undoStack (undo b).
Proof.
  intros Hp Hu. unfold undo. rewrite Hu. destruct (last (undoStack b)); simpl; [done|].
  by rewrite Hp, Hu.
Qed.

Lemma iter_undo_history_cong n (a b : State) :
  pixels a = pixels b → undoStack a = undoStack b →
  pixels (Nat.iter n undo a) = pixels (Nat.iter n undo b)
  ∧ undoStack (Nat.iter n undo a) = undoStack (Nat.iter n undo b).
Proof.
  intros Hp Hu. induction n as [|n [IHp IHu]]; simpl; [done|].
  by apply undo_history_cong.
Qed.

Lemma perform_all_snoc acts a st :
  perform_all (acts ++ [a]) st = perform a (perform_all acts st).
Proof. unfold perform_all. by rewrite foldl_app. Qed.

Lemma perform_all_app acts1 acts2 st :
  perform_all (acts1 ++ acts2) st = perform_all acts2 (perform_all acts1 st).
Proof. unfold perform_all. by rewrite foldl_app. Qed.

(** As many undos as actions bring back the buffer and the undo stack. *)
Lemma undo_all acts st :
  pixels (Nat.iter (length acts) undo (perform_all acts st)) = pixels st
  ∧ undoStack (Nat.iter (length acts) undo (perform_all acts st)) = undoStack st.
Proof.
  induction acts as [|a acts IH] using rev_ind; [done|].
  replace (length (acts ++ [a])) with (S (length acts))
    by (rewrite length_app; simpl; lia).
  rewrite Nat.iter_succ_r, perform_all_snoc.
  destruct (perform_stacks a (perform_all acts st)) as [Hu _].
  destruct (undo_redo_top _ _ _ Hu) as (Hp & _ & Hu' & _).
  destruct (iter_undo_history_cong (length acts) _ _ Hp Hu') as [-> ->].
  exact IH.
Qed.

Lemma perform_all_undoStack acts a st : undoStack (perform_all (acts ++ [a]) st) ≠ [].
Proof.
  rewrite perform_all_snoc.
  destruct (perform_stacks a (perform_all acts st)) as [-> _].
  by destruct (undoStack _).
Qed.

End MoreHistory.

(** X9. [redo] undoes [undo] and [undo] undoes [redo], on the whole state:
    with a non-empty undo stack [redo (undo st) = st], and with a non-empty
    redo stack [undo (redo st) = st]. *)
Theorem undo_redo_inverse (st : State) :
  (undoStack st ≠ [] → redo (undo st) = st)
  ∧ (redoStack st ≠ [] → undo (redo st) = st).
Proof. split; [apply redo_undo|apply undo_redo]. Qed.

Lemma undo_redo_inverse_witness :
  ∃ st, run [PointerDown 0 0; PointerUp; ClearAll; Undo] initial = Some st
        ∧ redo (undo st) = st ∧ undo (redo st) = st.
Proof.
  eexists. split; [vm_compute; reflexivity|].
  match goal with |- redo (undo ?s) = _ ∧ _ =>
    destruct (undo_redo_inverse s) as [Hu Hr]
  end.
  split; [apply Hu; discriminate|apply Hr; discriminate].
Defined.

(** X10. [undo] and [redo] only move along the timeline of the session,
    the undo stack followed by the live buffer and the reversed redo stack:
    neither adds, drops or reorders a buffer.  [undo] moves one step back
    unless the undo stack is empty, [redo] one step forward unless the redo
    stack is empty. *)
Theorem undo_redo_timeline (st : State) :
  timeline (undo st) = timeline st
  ∧ timeline (redo st) = timeline st
  ∧ (undoStack st ≠ [] → length (undoStack (undo st)) = (length (undoStack st) - 1)%nat)
  ∧ (redoStack st ≠ [] → length (undoStack (redo st)) = S (length (undoStack st))).
Proof.
  split; [|split; [|split]].
  - destruct (decide (undoStack st = [])) as [Hu|(u & prev & Hu)%nonempty_snoc].
    { by rewrite undo_empty. }
    rewrite (undo_snoc st u prev Hu). unfold timeline. simpl.
    rewrite Hu, reverse_app, <-!app_assoc. done.
  - destruct (decide (redoStack st = [])) as [Hr|(r & next & Hr)%nonempty_snoc].
    { by rewrite redo_empty. }
    rewrite (redo_snoc st r next Hr). unfold timeline. simpl.
    rewrite Hr, reverse_app, <-!app_assoc. done.
  - intros (u & prev & Hu)%nonempty_snoc.
    rewrite (undo_snoc st u prev Hu). simpl. rewrite Hu, length_app. simpl. lia.
  - intros (r & next & Hr)%nonempty_snoc.
    rewrite (redo_snoc st r next Hr). simpl. rewrite length_app. simpl. lia.
Qed.

Lemma undo_redo_timeline_witness :
  ∃ st, run [PointerDown 0 0; PointerUp; ClearAll] initial = Some st
        ∧ length (undoStack (undo st)) = 1%nat
        ∧ timeline (undo (undo st)) = timeline st.
Proof.
  eexists. split; [vm_compute; reflexivity|].
  match goal with |- length (undoStack (undo ?s)) = _ ∧ _ =>
    destruct (undo_redo_timeline s) as (Ht & _ & Hlen & _);
    destruct (undo_redo_timeline (undo s)) as (Ht' & _)
  end.
  split; [apply Hlen; discriminate|]. by rewrite Ht', Ht.
Defined.

(** X11. Multi-level undo: after any sequence of actions (gestures,
    "Clear", "Fill canvas"), as many undos as there were actions restore
    the buffer and the undo stack from before the first action, and as
    many redos after that restore the whole state from after the last. *)
Theorem undo_all_redo_all (acts : list action) (st : State) :
  pixels (Nat.iter (length acts) undo (perform_all acts st)) = pixels st
  ∧ undoStack (Nat.iter (length acts) undo (perform_all acts st)) = undoStack st
  ∧ Nat.iter (length acts) redo (Nat.iter (length acts) undo (perform_all acts st))
    = perform_all acts st.
Proof.
  destruct (undo_all acts st) as [Hp Hu]. split; [done|]. split; [done|].
  assert (∀ k acts1 acts2, acts = acts1 ++ acts2 → length acts2 = k →
            Nat.iter k redo (Nat.iter k undo (perform_all acts st))
            = perform_all acts st) as Hgen; [|by apply (Hgen _ [] acts)].
  induction k as [|k IH]; intros acts1 acts2 Hacts Hlen; [done|].
  destruct acts2 as [|a acts2]; [done|]. simpl in Hlen.
  rewrite Nat.iter_succ_r. simpl.
  rewrite redo_undo; [apply (IH (acts1 ++ [a]) acts2); [by rewrite <-app_assoc|lia]|].
  assert (k = length acts2) as -> by lia.
  rewrite Hacts.
  replace (acts1 ++ a :: acts2) with ((acts1 ++ [a]) ++ acts2) by (by rewrite <-app_assoc).
  rewrite perform_all_app.
  destruct (undo_all acts2 (perform_all (acts1 ++ [a]) st)) as [_ ->].
  apply perform_all_undoStack.
Qed.

Section MoreInvariants.

Implicit Types (st : State).

Lemma Forall_last_take {A} (P : A → Prop) (l : list A) x :
  Forall P l → last l = Some x → P x ∧ Forall P (take (length l - 1) l).
Proof.
  intros Hl Hx. split.
  - rewrite Forall_forall in Hl. apply Hl. rewrite last_Some in Hx.
    destruct Hx as [l' ->]. apply elem_of_app. right. by left.
  - by apply Forall_take.
Qed.

Lemma grid_ok_handlePaint x y c st :
  in_grid st x y → grid_ok st → grid_ok (handlePaint x y c st).
Proof.
  intros Hxy (Hp & Hu & Hr).
  pose proof (handlePaint_full st x y c Hxy Hp). done.
Qed.

Lemma grid_ok_pushHistory st :
  grid_ok st → grid_ok (pushHistory (pixels st) st).
Proof.
  intros (Hp & Hu & Hr). split; [done|]. split; [|constructor].
  simpl. apply Forall_app. split; [done|by constructor].
Qed.

Lemma grid_ok_setDrawing b st : grid_ok st → grid_ok (setDrawing b st).
Proof. done. Qed.

Lemma grid_ok_handle st e :
  grid_ok st → sets_size e = false → from_grid st e →
  ∃ st', handle e st = Some st' ∧ grid_ok st' ∧ size st' = size st.
Proof.
  intros Hok Hsz Hfrom. assert (Hok' := Hok). destruct Hok' as (Hp & Hu & Hr).
  destruct e; simpl in *; try done;
    try (eexists; split; [reflexivity|]); try done.
  - (* pointer down *)
    unfold onPointerDown.
    pose proof (grid_ok_pushHistory (setDrawing true st) (grid_ok_setDrawing true st Hok)).
    repeat case_match; (split; [|done]); try done; by apply grid_ok_handlePaint.
  - (* pointer enter *)
    unfold onPointerEnter.
    repeat case_match; (split; [|done]); try done; by apply grid_ok_handlePaint.
  - (* clear *)
    split; [|done]. split; [|apply (grid_ok_pushHistory st Hok)].
    apply length_Array_fill. nia.
  - (* fill *)
    split; [|done]. split; [|apply (grid_ok_pushHistory st Hok)].
    apply length_Array_fill. nia.
  - (* undo *)
    unfold undo. destruct (last (undoStack st)) as [prev|] eqn:Hl; [|done].
    destruct (Forall_last_take _ _ _ Hu Hl) as [Hprev Htake].
    split; [|done]. split; [done|]. split; [done|].
    simpl. apply Forall_app. split; [done|by constructor].
  - (* redo *)
    unfold redo. destruct (last (redoStack st)) as [next|] eqn:Hl; [|done].
    destruct (Forall_last_take _ _ _ Hr Hl) as [Hnext Htake].
    split; [|done]. split; [done|]. split; [|done].
    simpl. apply Forall_app. split; [done|by constructor].
  - (* palette click *)
    case_match; by eexists.
Qed.


(** The handlers that yield no state. *)
Lemma handle_fatal st e : handle e st = None ↔ fatal e = true.
Proof.
  destruct e; cbn [handle fatal]; try done.
  - rewrite onSizeChange_int. done.
  - case_match; done.
  - destruct file as [[data|]|]; cbn [importJSON onload]; try done.
    destruct (truthy data); cbn [negb orb andb fmap option_fmap option_map fst]; [|done].
    destruct (String.eqb _ _); cbn [negb orb andb fmap option_fmap option_map fst]; [|done].
    destruct (Array_isArray (get data "pixels"));
      cbn [negb orb andb fmap option_fmap option_map fst]; [|done].
    unfold setSizeNumber.
    by destruct (to_int _) as [z|]; cbn.
Qed.


End MoreInvariants.

(** X12. In a session without size change and without import, the live
    buffer and every snapshot on the undo and redo stacks keep exactly
    [size * size] entries: each event from the grid and the controls
    preserves that, and the size stays what it was. *)
Theorem grid_ok_preserved (evs : list event) (st : State) :
  grid_ok st →
  Forall (λ e, sets_size e = false ∧ from_grid st e) evs →
  ∃ st', run evs st = Some st' ∧ grid_ok st' ∧ size st' = size st.
Proof.
  revert st. induction evs as [|e evs IH]; intros st Hok Hevs; [by exists st|].
  apply Forall_cons in Hevs as [[Hsz Hfrom] Hevs].
  destruct (grid_ok_handle st e Hok Hsz Hfrom) as (st1 & Hh & Hok1 & Hsize1).
  rewrite run_cons, (step_keeps_size st e st1 Hh Hsize1), bind_Some.
  destruct (IH st1 Hok1) as (st' & Hrun & Hok' & Hsize').
  { eapply Forall_impl; [exact Hevs|]. intros e' [? Hg]. split; [done|].
    destruct e'; simpl in *; try done; unfold in_grid in *; by rewrite Hsize1. }
  exists st'. split; [done|]. split; [done|]. by rewrite Hsize'.
Qed.

Lemma grid_ok_preserved_witness :
  ∃ st', run [PointerDown 0 0; PointerEnter 1 0; PointerUp; FillBackground;
              Undo; Undo; Redo; EraserClick; PointerDown 31 31] initial = Some st'
         ∧ grid_ok st' ∧ size st' = 32.
Proof.
  assert (grid_ok initial) as Hok.
  { split; [reflexivity|]. split; constructor. }
  assert (∀ a b, (0 <=? a) && (a <? 32) && (0 <=? b) && (b <? 32) = true →
                 in_grid initial a b) as Hgrid.
  { intros a b H. unfold in_grid. change (size initial) with 32. lia. }
  apply (grid_ok_preserved _ initial Hok).
  repeat (apply Forall_cons; split;
          [split; [reflexivity|first [exact I|apply Hgrid; reflexivity]]|]).
  apply Forall_nil_2.
Defined.

(** X13. A size change keeps the history.  From a grid whose buffers fit,
    a size input that changes the size blanks the live buffer to the new
    number of cells but leaves both stacks as they were; an [undo] right
    after it makes the newest snapshot, which has the old number of
    entries, the live buffer of the resized grid. *)
Theorem undo_after_resize (st : State) (n : Z) :
  grid_ok st → 0 ≤ size st → Z.max 2 (Z.min 256 n) ≠ size st →
  ∃ st1,
    step st (SizeChange n) = Some st1
    ∧ size st1 = Z.max 2 (Z.min 256 n)
    ∧ pixels st1
      = replicate (Z.to_nat (Z.max 2 (Z.min 256 n) * Z.max 2 (Z.min 256 n))) VNull
    ∧ undoStack st1 = undoStack st
    ∧ redoStack st1 = redoStack st
    ∧ (∀ prev, last (undoStack st) = Some prev →
         ∃ st2, run [SizeChange n; Undo] st = Some st2
                ∧ pixels st2 = prev
                ∧ size st2 = Z.max 2 (Z.min 256 n)
                ∧ ¬ full_buffer (size st2) (pixels st2)).
Proof.
  intros (Hp & Hu & Hr) Hsz Hne.
  assert (2 ≤ Z.max 2 (Z.min 256 n) ≤ 256) as Hc by lia.
  set (N := Z.max 2 (Z.min 256 n)) in *.
  assert (N * N ≠ size st * size st) as Hsq by nia.
  assert (step st (SizeChange n)
          = Some (setPixels (replicate (Z.to_nat (N * N)) VNull) (setSize N st)))
    as Hstep.
  { rewrite step_SizeChange. fold N.
    destruct (Z.eqb_spec N (size st)); [done|].
    unfold sizeEffect, resetPixels. simpl.
    destruct (Z.eqb_spec (Z.of_nat (length (pixels st))) (N * N)) as [Heq|_]; [|done].
    unfold full_buffer in Hp. lia. }
  eexists. split; [exact Hstep|].
  split; [done|]. split; [done|]. split; [done|]. split; [done|].
  intros prev Hlast.
  exists (setUndoStack (take (length (undoStack st) - 1) (undoStack st))
            (setPixels prev
               (setRedoStack (redoStack st ++ [replicate (Z.to_nat (N * N)) VNull])
                  (setSize N st)))).
  split.
  { rewrite run_cons, Hstep, bind_Some, run_cons.
    erewrite step_keeps_size; [done| |done].
    simpl. unfold undo. simpl. by rewrite Hlast. }
  simpl. split; [done|]. split; [done|].
  destruct (Forall_last_take _ _ _ Hu Hlast) as [Hprev _].
  unfold full_buffer in *. lia.
Qed.

Lemma undo_after_resize_witness :
  ∃ st st2,
    run [PointerDown 0 0; PointerUp] initial = Some st
    ∧ run [SizeChange 4; Undo] st = Some st2
    ∧ length (pixels st2) = 1024%nat
    ∧ size st2 = 4.
Proof.
  eexists. 
  match goal with |- ∃ st2, run ?evs ?i = Some ?s ∧ _ =>
    assert (run evs i = Some s) as Hrun by (vm_compute; reflexivity)
  end.
  match type of Hrun with _ = Some ?s => set (st := s) in * end.
  assert (grid_ok st) as Hok.
  { split; [reflexivity|]. split; repeat constructor. }
  destruct (undo_after_resize st 4 Hok) as (st1 & _ & _ & _ & _ & _ & Hundo);
    [discriminate|discriminate|].
  destruct (Hundo (pixels initial)) as (st2 & Hrun2 & Hpix & Hsize & _); [reflexivity|].
  exists st2. split; [exact Hrun|]. split; [exact Hrun2|].
  split; [by rewrite Hpix|exact Hsize].
Defined.



Section MoreSerializer.

Implicit Types (st : State) (data : value).

(** An entry of a parsed array, given the contents of the array. *)
Lemma map_erase_lookup (px l : list value) (i : nat) (v : value) :
  map erase px = map erase l → l !! i = Some v →
  ∃ v', px !! i = Some v' ∧ erase v' = erase v.
Proof.
  intros Heq Hi. apply (f_equal (λ l, l !! i)) in Heq.
  rewrite !list_lookup_fmap, Hi in Heq. simpl in Heq.
  destruct (px !! i) as [v'|]; [|done]. exists v'. split; [done|]. by injection Heq.
Qed.

End MoreSerializer.

(** X15. The live state after a valid import whose size, clamped, is the
    integer [N], once the effect keyed on [size] has run: the imported
    buffer is kept when the import does not change the size or when the
    buffer has as many entries as the new grid has cells; otherwise it is
    discarded for a blank grid.  The history stacks stay as they were.
    Importing the same document a second time always installs the
    document's buffer, also where the first import discarded it. *)
Theorem import_then_effect (data : value) (st : State) (n : number) (r : ref)
    (px : list value) (N : Z) :
  get data "size" = VNum n → get data "pixels" = VArr r px →
  to_int (clamp n (int 2) (int 256)) = Some N →
  ∃ st' st'',
    step st (ImportJSON (Some (Some data))) = Some st'
    ∧ size st' = N
    ∧ (N = size st ∨ full_buffer N px → pixels st' = px)
    ∧ (N ≠ size st → ¬ full_buffer N px →
       pixels st' = replicate (Z.to_nat (N * N)) VNull)
    ∧ undoStack st' = undoStack st
    ∧ redoStack st' = redoStack st
    ∧ run [ImportJSON (Some (Some data)); ImportJSON (Some (Some data))] st = Some st''
    ∧ size st'' = N
    ∧ pixels st'' = px.
Proof.
  intros Hsz Hpx HN.
  rewrite run_cons, (step_import_valid data st n r px N Hsz Hpx HN), bind_Some.
  rewrite run_cons, (step_import_valid data _ n r px N Hsz Hpx HN). simpl.
  rewrite Z.eqb_refl.
  eexists _, _. split; [done|]. simpl. split; [done|].
  split; [|split; [|split; [done|split; [done|split; [done|done]]]]].
  - intros Hkeep. destruct (Z.eqb_spec N (size st)) as [Heq|Hne]; [done|].
    destruct Hkeep as [Heq|Hfull]; [done|].
    unfold resetPixels. unfold full_buffer in Hfull. by rewrite Hfull, Z.eqb_refl.
  - intros Hne Hfull. destruct (Z.eqb_spec N (size st)) as [Heq|_]; [done|].
    unfold resetPixels, full_buffer in *.
    by destruct (Z.eqb_spec (Z.of_nat (length px)) (N * N)).
Qed.

Lemma import_then_effect_witness :
  let data := VObj 1%nat (<["size" := VNum (int 3)]>
                         (<["pixels" := VArr 2%nat [VStr "#ff0000"]]> ∅)) in
  ∃ st' st'',
    step initial (ImportJSON (Some (Some data))) = Some st'
    ∧ pixels st' = replicate 9 VNull
    ∧ run [ImportJSON (Some (Some data)); ImportJSON (Some (Some data))] initial
      = Some st''
    ∧ pixels st'' = [VStr "#ff0000"].
Proof.
  intros data.
  destruct (import_then_effect data initial (int 3) 2%nat [VStr "#ff0000"] 3)
    as (st' & st'' & Hstep & _ & _ & Hblank & _ & _ & Hrun & _ & Htwice);
    [reflexivity..|].
  exists st', st''. split; [exact Hstep|].
  split; [apply Hblank; [discriminate|unfold full_buffer; discriminate]|].
  split; [exact Hrun|exact Htwice].
Defined.

(** X16. A document with the contents a state exports always passes the
    validation of [importJSON], whatever the state: no alert, the size is
    the exported one clamped, buffer and palette have the exported
    lengths, every entry JSON can represent comes back with its contents
    (as it was, when it is a primitive value), and a hole, a [NaN] and an
    infinity come back as [null]. *)
Theorem export_always_imports (st st0 : State) (now : Z) (data : value) :
  erase data = exportJSON now st →
  ∃ st3,
    importJSON (Some (Some data)) st0 = Some (st3, None)
    ∧ size st3 = Z.max 2 (Z.min 256 (size st))
    ∧ length (pixels st3) = length (pixels st)
    ∧ length (palette st3) = length (palette st)
    ∧ (∀ i v, pixels st !! i = Some v → is_json v = true →
         ∃ v', pixels st3 !! i = Some v' ∧ erase v' = erase v)
    ∧ (∀ i v, pixels st !! i = Some v → is_json v = true → primitive v = true →
         pixels st3 !! i = Some v)
    ∧ (∀ i, pixels st !! i = Some VUndef → pixels st3 !! i = Some VNull)
    ∧ (∀ i n, pixels st !! i = Some (VNum n) → finite n = false →
         pixels st3 !! i = Some VNull).
Proof.
  intros Hdata.
  destruct (parsed_fields now st data Hdata)
    as (Hs & (r & px & Hp & Hpe) & (r' & pal & Hq & Hqe)).
  rewrite (importJSON_valid data st0 _ r px Hs Hp), Hq.
  rewrite JSFacts.clamp_int, JSFacts.to_int_int. simpl.
  eexists. split; [done|]. simpl. split; [done|].
  split. { by rewrite <-(length_map erase px), Hpe, !length_map. }
  split. { by rewrite <-(length_map erase pal), Hqe, !length_map. }
  assert (∀ i v, pixels st !! i = Some v →
            ∃ v', px !! i = Some v'
                  ∧ erase v' = erase (match v with VUndef => VNull | _ => JSON_clone v end))
    as Hentry.
  { intros i v Hi. apply (map_erase_lookup px _ i _ Hpe).
    by rewrite list_lookup_fmap, Hi. }
  split; [|split; [|split]].
  - intros i v Hi Hv. destruct (Hentry i v Hi) as (v' & Hv' & He).
    exists v'. split; [done|]. rewrite He, (JSFacts.JSON_clone_id v Hv). by destruct v.
  - intros i v Hi Hv Hprim. destruct (Hentry i v Hi) as (v' & Hv' & He).
    rewrite Hv'. f_equal. apply JSFacts.erase_primitive_inv; [done|].
    rewrite He. destruct v; simpl in *; try done. by rewrite Hv.
  - intros i Hi. destruct (Hentry i VUndef Hi) as (v' & Hv' & He).
    rewrite Hv'. f_equal. by apply (JSFacts.erase_primitive_inv VNull).
  - intros i n Hi Hn. destruct (Hentry i (VNum n) Hi) as (v' & Hv' & He).
    rewrite Hv'. f_equal. simpl in He. rewrite Hn in He.
    by apply (JSFacts.erase_primitive_inv VNull).
Qed.

Lemma export_always_imports_witness :
  ∃ st st3,
    run [SizeChange 2; PointerDown 0 0; PointerUp; SizeChange 3; Undo;
         PointerDown 2 2; PointerUp] initial = Some st
    ∧ importJSON (Some (Some (exportJSON 0 st))) initial = Some (st3, None)
    ∧ pixels st3 !! 8%nat = Some (VStr "#1f2937")
    ∧ pixels st3 !! 4%nat = Some VNull.
Proof.
  eexists.
  match goal with |- ∃ st3, run ?evs ?i = Some ?s ∧ _ =>
    assert (run evs i = Some s) as Hrun by (vm_compute; reflexivity)
  end.
  match type of Hrun with _ = Some ?s => set (st := s) in * end.
  destruct (export_always_imports st initial 0 (exportJSON 0 st))
    as (st3 & Hi & _ & _ & _ & _ & Hkeep & Hhole & _); [vm_compute; reflexivity|].
  exists st3. split; [exact Hrun|]. split; [exact Hi|].
  split; [apply Hkeep; reflexivity|apply Hhole; reflexivity].
Defined.

Section MorePalette.

Implicit Types (st : State) (p : list value) (c x : value).

(** [v !== c] is "not the same value", unless [c] is [NaN]: everything
    is [!==] to [NaN]. *)
Lemma strict_eq_same x c : c ≠ VNum NaN → strict_eq x c = same_value x c.
Proof.
  intros Hc. unfold strict_eq. destruct x as [| | |[]| | |]; try done.
  symmetry. apply JSFacts.same_value_false. congruence.
Qed.

Lemma NaN_cases c : c = VNum NaN ∨ c ≠ VNum NaN.
Proof. destruct c as [| | |[]| | |]; (by left) || (by right). Qed.

Lemma strict_eq_NaN x : strict_eq x (VNum NaN) = false.
Proof.
  unfold strict_eq. destruct x as [| | |[]| | |]; try done.
Qed.

Lemma filter_strict_eq c p :
  c ≠ VNum NaN →
  List.filter (λ v, negb (strict_eq v c)) p
  = List.filter (λ v, negb (same_value v c)) p.
Proof. intros Hc. apply List.filter_ext. intros v. by rewrite strict_eq_same. Qed.

Lemma filter_strict_NaN p :
  List.filter (λ v, negb (strict_eq v (VNum NaN))) p = p.
Proof.
  induction p as [|x p IH]; simpl; [done|]. by rewrite strict_eq_NaN, IH.
Qed.

Lemma filter_ne_elem_of c p x :
  x ∈ List.filter (λ v, negb (same_value v c)) p ↔ x ∈ p ∧ x ≠ c.
Proof.
  rewrite !list_elem_of_In, List.filter_In, negb_true_iff, JSFacts.same_value_false. done.
Qed.

Lemma filter_ne_sublist (f : value → bool) p : sublist (List.filter f p) p.
Proof.
  induction p as [|x p IH]; simpl; [done|].
  destruct (f x); [by apply sublist_skip|by apply sublist_cons].
Qed.

Lemma filter_ne_id c p :
  c ∉ p → List.filter (λ v, negb (same_value v c)) p = p.
Proof.
  induction p as [|x p IH]; simpl; [done|].
  intros [Hne Hp]%not_elem_of_cons.
  assert (same_value x c = false) as -> by (apply JSFacts.same_value_false; congruence).
  simpl. by rewrite IH.
Qed.


(** "Add to palette" on a palette without duplicates. *)
Lemma addToPalette_NoDup st :
  NoDup (palette st) →
  palette (addToPalette st)
  = currentColor st
    :: take 23 (List.filter (λ v, negb (same_value v (currentColor st))) (palette st)).
Proof.
  intros Hp. unfold addToPalette. simpl.
  rewrite Array_from_Set_cons, (foldl_Set_add_filter _ _ Hp). simpl. do 2 f_equal.
  apply List.filter_ext. intros v. unfold Set_has. simpl. by rewrite orb_false_r.
Qed.

(** Whatever the palette was, it has no duplicates and at most 24 entries
    after "Add to palette". *)
Lemma addToPalette_wf st :
  NoDup (palette (addToPalette st)) ∧ (length (palette (addToPalette st)) ≤ 24)%nat.
Proof.
  unfold addToPalette. simpl. split; [|rewrite length_take; lia].
  destruct (foldl_Set_add_sub [] (currentColor st :: palette st)) as (t & Heq & _ & Hnd & _);
    [constructor|].
  unfold Array_from_Set. rewrite Heq. simpl in *.
  by apply (sublist_NoDup _ t), sublist_take.
Qed.

Lemma removeFromPalette_wf st :
  NoDup (palette st) → (length (palette st) ≤ 24)%nat →
  NoDup (palette (removeFromPalette st))
  ∧ (length (palette (removeFromPalette st)) ≤ 24)%nat.
Proof.
  intros Hnd Hlen.
  pose proof (filter_ne_sublist (λ v, negb (strict_eq v (currentColor st))) (palette st))
    as Hsub.
  split; [by apply (sublist_NoDup _ (palette st))|].
  apply sublist_length in Hsub. simpl. lia.
Qed.

Lemma removeFromPalette_NaN st :
  currentColor st = VNum NaN → removeFromPalette st = st.
Proof.
  intros Hc. unfold removeFromPalette. rewrite Hc, filter_strict_NaN. by destruct st.
Qed.

Lemma removeFromPalette_absent st :
  currentColor st ∉ palette st → removeFromPalette st = st.
Proof.
  intros Hs. destruct (NaN_cases (currentColor st)) as [Hc|Hc].
  { by apply removeFromPalette_NaN. }
  unfold removeFromPalette. rewrite filter_strict_eq, filter_ne_id by done.
  by destruct st.
Qed.

End MorePalette.

(** X17. "Remove" keeps the entries that are [!==] to the current colour.
    It deletes every occurrence of the current colour from the palette
    and nothing else: the other entries stay, in their order.  It changes
    nothing when the colour is not in the palette, removing twice is
    removing once, and it takes back an "Add to palette" that added a new
    colour to a duplicate-free palette of fewer than 24 entries.  The
    exception is the current colour [NaN], which is [!==] to itself:
    then "Remove" removes nothing. *)
Theorem remove_from_palette (st : State) :
  (currentColor st ≠ VNum NaN → currentColor st ∉ palette (removeFromPalette st))
  ∧ sublist (palette (removeFromPalette st)) (palette st)
  ∧ (∀ x, x ∈ palette st → x ≠ currentColor st → x ∈ palette (removeFromPalette st))
  ∧ removeFromPalette (removeFromPalette st) = removeFromPalette st
  ∧ (currentColor st ∉ palette st → removeFromPalette st = st)
  ∧ (currentColor st = VNum NaN → removeFromPalette st = st)
  ∧ (NoDup (palette st) → currentColor st ∉ palette st →
     (length (palette st) < 24)%nat → currentColor st ≠ VNum NaN →
     removeFromPalette (addToPalette st) = st).
Proof.
  assert (currentColor st ≠ VNum NaN → currentColor st ∉ palette (removeFromPalette st))
    as Hgone.
  { intros Hc. simpl. rewrite filter_strict_eq, filter_ne_elem_of by done. by intros [_ ?]. }
  split; [done|]. split; [apply filter_ne_sublist|]. split.
  { intros x Hx Hne. simpl. apply list_elem_of_In, List.filter_In.
    split; [by apply list_elem_of_In|]. by rewrite JSFacts.strict_eq_ne. }
  split.
  { destruct (NaN_cases (currentColor st)) as [Hc|Hc].
    - by rewrite !(removeFromPalette_NaN st Hc).
    - apply removeFromPalette_absent. by apply Hgone. }
  split; [apply removeFromPalette_absent|]. split; [apply removeFromPalette_NaN|].
  intros Hnd Hc Hlen Hnan. unfold removeFromPalette.
  rewrite (addToPalette_NoDup st Hnd), (filter_ne_id _ _ Hc).
  rewrite take_ge by lia.
  change (currentColor (addToPalette st)) with (currentColor st).
  rewrite filter_strict_eq by done. cbn [List.filter].
  rewrite JSFacts.same_value_refl. cbn [negb].
  rewrite (filter_ne_id _ _ Hc). by destruct st.
Qed.

Lemma remove_from_palette_witness :
  removeFromPalette initial = initial
  ∧ removeFromPalette (addToPalette initial) = initial
  ∧ removeFromPalette (setPalette [VNum NaN] (setCurrentColor (VNum NaN) initial))
    = setPalette [VNum NaN] (setCurrentColor (VNum NaN) initial).
Proof.
  assert (currentColor initial ∉ palette initial) as Hc.
  { simpl. rewrite !elem_of_cons, elem_of_nil.
    intros H. repeat (destruct H as [H|H]; [discriminate|]). exact H. }
  assert (NoDup (palette initial)) as Hnd.
  { simpl. repeat (apply NoDup_cons; split;
            [rewrite ?elem_of_cons, elem_of_nil; intros H;
             repeat (destruct H as [H|H]; [discriminate|]); exact H|]).
    apply NoDup_nil. done. }
  destruct (remove_from_palette initial) as (_ & _ & _ & _ & Hid & _ & Hback).
  destruct (remove_from_palette (setPalette [VNum NaN] (setCurrentColor (VNum NaN) initial)))
    as (_ & _ & _ & _ & _ & Hnan & _).
  split; [by apply Hid|]. split; [|apply Hnan; reflexivity].
  apply Hback; [done|done| |discriminate]. simpl. lia.
Defined.



(** X19. The palette stays a list of at most 24 entries, no two of them
    the same value, under every event except an import, which installs
    whatever array the document carries; and a session without import
    ends only on a size input in which [parseInt] finds no number. *)
Theorem palette_invariant (evs : list event) (st : State) :
  NoDup (palette st) → (length (palette st) ≤ 24)%nat →
  Forall (λ e, is_import e = false) evs →
  (∀ st', run evs st = Some st' →
     NoDup (palette st') ∧ (length (palette st') ≤ 24)%nat)
  ∧ (SizeChangeNaN ∉ evs → ∃ st', run evs st = Some st').
Proof.
  revert st. induction evs as [|e evs IH]; intros st Hnd Hlen Hevs.
  { split; [by intros st' [= <-]|by exists st]. }
  apply Forall_cons in Hevs as [He Hevs].
  assert (∀ s, handle e st = Some s →
            NoDup (palette s) ∧ (length (palette s) ≤ 24)%nat) as Hh.
  { intros s Hs. destruct e; cbn [handle] in Hs; try done.
    all: try (by injection Hs as <-).
    - injection Hs as <-. unfold onPointerDown. by repeat case_match.
    - injection Hs as <-. by rewrite onPointerEnter_frame.
    - injection Hs as <-. unfold undo. by case_match.
    - injection Hs as <-. unfold redo. by case_match.
    - rewrite onSizeChange_int in Hs. by injection Hs as <-.
    - by case_match; injection Hs as <-.
    - injection Hs as <-. apply addToPalette_wf.
    - injection Hs as <-. by apply removeFromPalette_wf. }
  assert (∀ s, step st e = Some s →
            NoDup (palette s) ∧ (length (palette s) ≤ 24)%nat) as Hs.
  { intros s. unfold step. destruct (handle e st) as [s1|]; [|done]. simpl.
    intros [= <-]. destruct (Hh s1 eq_refl). by destruct (size s1 =? size st). }
  rewrite run_cons. split.
  - intros st'. destruct (step st e) as [s|]; [|done]. rewrite bind_Some.
    destruct (Hs s eq_refl). by apply IH.
  - intros [Hne Hnot]%not_elem_of_cons.
    assert (∃ s, step st e = Some s) as [s Hstep].
    { unfold step. destruct (handle e st) as [s1|] eqn:Hh1; [by eexists|].
      apply handle_fatal in Hh1. by destruct e. }
    rewrite Hstep, bind_Some. destruct (Hs s Hstep). by apply IH.
Qed.

Lemma palette_invariant_witness :
  ∃ st', run [ColorChange "#123456"; AddToPalette; AddToPalette;
              PaletteClick 3; RemoveFromPalette] initial = Some st'
         ∧ NoDup (palette st').
Proof.
  assert (NoDup (palette initial)) as Hnd.
  { simpl. repeat (apply NoDup_cons; split;
            [rewrite ?elem_of_cons, elem_of_nil; intros H;
             repeat (destruct H as [H|H]; [discriminate|]); exact H|]).
    apply NoDup_nil. done. }
  destruct (palette_invariant
              [ColorChange "#123456"; AddToPalette; AddToPalette;
               PaletteClick 3; RemoveFromPalette] initial Hnd) as [Hinv Hlive].
  { simpl. lia. }
  { repeat (apply Forall_cons; split; [reflexivity|]). apply Forall_nil_2. }
  destruct Hlive as [st' Hrun].
  { rewrite !elem_of_cons, elem_of_nil.
    intros H. repeat (destruct H as [H|H]; [discriminate|]). exact H. }
  exists st'. split; [exact Hrun|]. by apply (Hinv st').
Defined.

Section MoreExporter.

Context (css : value → option string).

Implicit Types (st : State) (calls rest : list canvas_call) (cs : list (Z * Z)).

Lemma filled_from_app_fill_free calls rest style cur px py :
  Forall (λ c, match c with SetFillStyle _ | FillRect _ _ _ _ => False | _ => True end)
         calls →
  filled_from css style cur (calls ++ rest) px py = filled_from css style cur rest px py.
Proof. induction 1 as [|c calls Hc _ IH]; [done|]. simpl. by destruct c. Qed.

Lemma grid_overlay_fill_free sz :
  Forall (λ c, match c with SetFillStyle _ | FillRect _ _ _ _ => False | _ => True end)
         (grid_overlay sz).
Proof.
  unfold grid_overlay. apply Forall_app. split; [by repeat constructor|].
  apply Forall_flat_map. intros i. by repeat constructor.
Qed.

(** The paint loop as one loop over the cells in the order of the visit. *)
Lemma paint_loop_cells st (ys xs : list Z) :
  flat_map (λ y, flat_map (paint_cell st y) xs) ys
  = flat_map (λ p, paint_cell st p.2 p.1) (flat_map (λ y, map (λ x, (x, y)) xs) ys).
Proof.
  induction ys as [|y ys IH]; simpl; [done|].
  rewrite flat_map_app, IH. f_equal. clear IH.
  induction xs as [|x xs IHx]; simpl; [done|]. by rewrite IHx.
Qed.

(** One cell of the paint loop, seen from the square [(px, py)]. *)
Lemma filled_from_cell st x y rest style cur px py :
  filled_from css style cur (paint_cell st y x ++ rest) px py
  = filled_from css (style_after css style [arr_get (pixels st) (idx st x y)])
      (if decide ((x, y) = (px, py))
       then (if truthy (arr_get (pixels st) (idx st x y))
             then Some (style_after css style [arr_get (pixels st) (idx st x y)])
             else cur)
       else cur)
      rest px py.
Proof.
  unfold paint_cell, style_after. simpl.
  destruct (truthy (arr_get (pixels st) (idx st x y))); simpl.
  - destruct (decide ((x, y) = (px, py))) as [[= -> ->]|Hne].
    + by replace ((px <=? px) && (px <? px + 1) && (py <=? py) && (py <? py + 1))
        with true by lia.
    + replace ((x <=? px) && (px <? x + 1) && (y <=? py) && (py <? y + 1))
        with false; [done|].
      symmetry. apply not_true_iff_false. intros H. apply Hne. f_equal; lia.
  - by destruct (decide ((x, y) = (px, py))).
Qed.

(** Cells other than [(px, py)] change the fill style only. *)
Lemma filled_from_miss st cs rest style cur px py :
  (px, py) ∉ cs →
  filled_from css style cur (flat_map (λ p, paint_cell st p.2 p.1) cs ++ rest) px py
  = filled_from css
      (style_after css style (map (λ p, arr_get (pixels st) (idx st p.1 p.2)) cs))
      cur rest px py.
Proof.
  revert style. induction cs as [|[x y] cs IH]; intros style Hnot; [done|].
  apply not_elem_of_cons in Hnot as [Hne Hnot].
  simpl. rewrite <-app_assoc, filled_from_cell.
  destruct (decide ((x, y) = (px, py))) as [Heq|_]; [by destruct Hne|].
  by rewrite IH.
Qed.

(** The cells of the grid in the order of the visit, split at [(x, y)]. *)
Lemma cells_split st x y :
  in_grid st x y →
  ∃ after,
    flat_map (λ y', map (λ x', (x', y')) (seqZ 0 (size st))) (seqZ 0 (size st))
    = cells_before st x y ++ (x, y) :: after
    ∧ ((x, y) ∉ cells_before st x y)
    ∧ ((x, y) ∉ after).
Proof.
  intros [Hx Hy]. set (sz := size st) in *.
  assert (∀ k, 0 ≤ k < sz → seqZ 0 sz = seqZ 0 k ++ k :: seqZ (k + 1) (sz - k - 1))
    as Hsplit.
  { intros k Hk. replace sz with (k + (sz - k)) at 1 by lia.
    rewrite seqZ_app by lia. f_equal. rewrite seqZ_cons by lia.
    repeat f_equal; lia. }
  exists (map (λ x', (x', y)) (seqZ (x + 1) (sz - x - 1))
          ++ flat_map (λ y', map (λ x', (x', y')) (seqZ 0 sz)) (seqZ (y + 1) (sz - y - 1))).
  assert (∀ (ys : list Z),
            ((x, y) ∈ flat_map (λ y', map (λ x', (x', y')) (seqZ 0 sz)) ys) → y ∈ ys)
    as Hrows.
  { intros ys (y' & Hy' & Hin)%list_elem_of_In%in_flat_map.
    apply list_elem_of_In, list_elem_of_fmap in Hin as (x' & [= -> ->] & _).
    by apply list_elem_of_In. }
  assert (∀ (xs : list Z), ((x, y) ∈ map (λ x', (x', y)) xs) → x ∈ xs) as Hrow.
  { intros xs (x' & [= ->] & Hin)%list_elem_of_fmap. done. }
  split; [|split].
  - unfold cells_before. fold sz.
    set (row := λ y' : Z, map (λ x', (x', y')) (seqZ 0 sz)).
    rewrite (Hsplit y Hy), flat_map_app. cbn [flat_map].
    assert (row y = map (λ x', (x', y)) (seqZ 0 x)
                    ++ (x, y) :: map (λ x', (x', y)) (seqZ (x + 1) (sz - x - 1))) as ->.
    { unfold row. rewrite (Hsplit x Hx). by rewrite map_app. }
    by rewrite <-!app_assoc.
  - unfold cells_before. fold sz. intros [H|H]%elem_of_app.
    + apply Hrows, elem_of_seqZ in H. lia.
    + apply Hrow, elem_of_seqZ in H. lia.
  - intros [H|H]%elem_of_app.
    + apply Hrow, elem_of_seqZ in H. lia.
    + apply Hrows, elem_of_seqZ in H. lia.
Qed.

End MoreExporter.

(** X20. The fills of [exportPNG], with or without the grid.  The last
    fill over the unit square of a cell of the grid is white when the cell
    is empty ([null], a hole, an entry past the end of the buffer or
    another falsy value), and the cell's colour when the cell holds one.
    When the cell holds a truthy value that is no colour, the assignment
    to [fillStyle] is ignored and the square is filled in the style then
    in force: the colour of the last cell before it, in the order of the
    loop, that holds a colour, or white. *)
Theorem exported_bitmap (css : value → option string) (st : State)
    (withGrid : bool) (x y : Z) (white : string) :
  in_grid st x y → css (VStr "#ffffff") = Some white →
  filled_at css (canvas_calls (exportPNG withGrid st)) x y
  = Some (if truthy (arr_get (pixels st) (idx st x y))
          then default
                 (style_after css white
                    (map (λ p, arr_get (pixels st) (idx st p.1 p.2))
                         (cells_before st x y)))
                 (css (arr_get (pixels st) (idx st x y)))
          else white)
  ∧ (truthy (arr_get (pixels st) (idx st x y)) = false →
     filled_at css (canvas_calls (exportPNG withGrid st)) x y = Some white)
  ∧ (∀ k, truthy (arr_get (pixels st) (idx st x y)) = true →
          css (arr_get (pixels st) (idx st x y)) = Some k →
          filled_at css (canvas_calls (exportPNG withGrid st)) x y = Some k).
Proof.
  intros Hxy Hwhite.
  assert (filled_at css (canvas_calls (exportPNG withGrid st)) x y
          = Some (if truthy (arr_get (pixels st) (idx st x y))
                  then default
                         (style_after css white
                            (map (λ p, arr_get (pixels st) (idx st p.1 p.2))
                                 (cells_before st x y)))
                         (css (arr_get (pixels st) (idx st x y)))
                  else white)) as Hfill.
  { destruct (cells_split st x y Hxy) as (after & Hcells & Hbefore & Hafter).
    destruct Hxy as [Hx Hy].
    unfold filled_at, exportPNG. cbn [canvas_calls app filled_from].
    rewrite Hwhite. cbn [default].
    replace ((0 <=? x) && (x <? 0 + size st) && (0 <=? y) && (y <? 0 + size st))
      with true by lia.
    rewrite paint_loop_cells, Hcells, flat_map_app, <-app_assoc.
    rewrite (filled_from_miss css st _ _ _ _ x y Hbefore).
    cbn [flat_map]. rewrite <-app_assoc, filled_from_cell.
    rewrite decide_True by done.
    rewrite (filled_from_miss css st _ _ _ _ x y Hafter).
    assert (∀ style cur,
              filled_from css style cur
                (if withGrid then grid_overlay (size st) else []) x y = cur) as ->.
    { intros style cur. destruct withGrid; [|done].
      rewrite <-(app_nil_r (grid_overlay (size st))).
      by rewrite filled_from_app_fill_free by apply grid_overlay_fill_free. }
    unfold style_after, id. cbn [foldl fst snd].
    by destruct (truthy (arr_get (pixels st) (idx st x y))). }
  split; [done|]. rewrite Hfill. split.
  - by intros ->.
  - by intros k -> ->.
Qed.

Lemma exported_bitmap_witness :
  let css := λ v, match v with
                  | VStr s => if String.prefix "#" s then Some s else None
                  | _ => None
                  end in
  (∃ st, run [PointerDown 3 4; PointerUp] initial = Some st
         ∧ filled_at css (canvas_calls (exportPNG true st)) 3 4 = Some "#1f2937"
         ∧ filled_at css (canvas_calls (exportPNG true st)) 4 3 = Some "#ffffff")
  ∧ (∃ st, run [ImportJSON (Some (Some (VObj 1%nat
                  (<["size" := VNum (int 2)]>
                  (<["pixels" := VArr 2%nat [VStr "#ff0000"; VStr "junk";
                                            VNull; VNum (int 5)]]> ∅)))))] initial
           = Some st
           ∧ filled_at css (canvas_calls (exportPNG false st)) 1 0 = Some "#ff0000"
           ∧ filled_at css (canvas_calls (exportPNG false st)) 0 1 = Some "#ffffff"
           ∧ filled_at css (canvas_calls (exportPNG false st)) 1 1 = Some "#ff0000").
Proof.
  intros css. split.
  - eexists. split; [vm_compute; reflexivity|].
    match goal with |- filled_at _ (canvas_calls (exportPNG _ ?s)) _ _ = _ ∧ _ =>
      set (st := s)
    end.
    assert (∀ a b, (0 <=? a) && (a <? 32) && (0 <=? b) && (b <? 32) = true →
                   in_grid st a b) as Hgrid.
    { intros a b H. unfold in_grid. change (size st) with 32. lia. }
    destruct (exported_bitmap css st true 3 4 "#ffffff") as (_ & _ & Hcol);
      [apply Hgrid; reflexivity|reflexivity|].
    destruct (exported_bitmap css st true 4 3 "#ffffff") as (_ & Hempty & _);
      [apply Hgrid; reflexivity|reflexivity|].
    split; [apply Hcol; reflexivity|apply Hempty; reflexivity].
  - eexists. split; [vm_compute; reflexivity|].
    match goal with |- filled_at _ (canvas_calls (exportPNG _ ?s)) _ _ = _ ∧ _ =>
      set (st := s)
    end.
    assert (∀ a b, (0 <=? a) && (a <? 2) && (0 <=? b) && (b <? 2) = true →
                   in_grid st a b) as Hgrid.
    { intros a b H. unfold in_grid. change (size st) with 2. lia. }
    destruct (exported_bitmap css st false 1 0 "#ffffff") as (H10 & _);
      [apply Hgrid; reflexivity|reflexivity|].
    destruct (exported_bitmap css st false 0 1 "#ffffff") as (_ & H01 & _);
      [apply Hgrid; reflexivity|reflexivity|].
    destruct (exported_bitmap css st false 1 1 "#ffffff") as (H11 & _);
      [apply Hgrid; reflexivity|reflexivity|].
    split; [rewrite H10; reflexivity|]. split; [apply H01; reflexivity|].
    rewrite H11; reflexivity.
Defined.

(** X21. The exported image is square, with edge [size * max(1,
    floor(512 / size))]: a multiple of the grid size, equal to 512 rounded
    down to a multiple of [size] when [size <= 512] (so more than [512 -
    size] and at most 512), and [size] itself for larger grids.  Image
    smoothing is off on the output canvas. *)
Theorem exported_size (st : State) (withGrid : bool) :
  0 < size st →
  canvas_width (exportPNG withGrid st) = size st
  ∧ canvas_height (exportPNG withGrid st) = size st
  ∧ out_height (exportPNG withGrid st) = out_width (exportPNG withGrid st)
  ∧ out_smoothing (exportPNG withGrid st) = false
  ∧ out_width (exportPNG withGrid st) `mod` size st = 0
  ∧ (size st ≤ 512 →
     out_width (exportPNG withGrid st) = 512 - 512 `mod` size st
     ∧ 512 - size st < out_width (exportPNG withGrid st) ≤ 512)
  ∧ (512 < size st → out_width (exportPNG withGrid st) = size st).
Proof.
  intros Hsz. unfold exportPNG. simpl.
  split; [done|]. split; [done|]. split; [done|]. split; [done|].
  split; [by rewrite Z.mul_comm, Z.mod_mul by lia|].
  pose proof (Z.div_mod 512 (size st)) as Hdm.
  pose proof (Z.mod_pos_bound 512 (size st) Hsz) as Hmod.
  split.
  - intros Hle. assert (1 ≤ 512 `div` size st) by (apply Z.div_le_lower_bound; lia).
    rewrite Z.max_r by lia. split; lia.
  - intros Hgt. rewrite Z.div_small by lia. rewrite Z.max_l by lia. lia.
Qed.

Lemma exported_size_witness :
  out_width (exportPNG false initial) = 512
  ∧ ∃ st, run [SizeChange 100] initial = Some st
          ∧ out_width (exportPNG false st) = 500.
Proof.
  assert (0 < size initial) as H0 by reflexivity.
  destruct (exported_size initial false H0) as (_ & _ & _ & _ & _ & Hsmall & _).
  split.
  - destruct Hsmall as [-> _]; [discriminate|reflexivity].
  - eexists. split; [vm_compute; reflexivity|].
    match goal with |- out_width (exportPNG _ ?s) = _ => set (st := s) end.
    assert (0 < size st) as H1 by reflexivity.
    destruct (exported_size st false H1) as (_ & _ & _ & _ & _ & Hsmall' & _).
    destruct Hsmall' as [-> _]; [discriminate|reflexivity].
Defined.
